(** * ProjectTwo: the course planner's store and prerequisite table

    A shallow embedding of [ProjectTwo.cpp]: the [Prerequisite] union, the
    open-addressing [PrereqHashTable], [Course] with its line parser, the
    unbalanced [BinarySearchTree] and the [Driver] that loads a catalog and
    validates the prerequisites.

    Conventions.
    - A [std::string] is a [string]; [operator<] on strings is the
      lexicographic order on unsigned bytes, which is [String.ltb].
    - A [u_int64_t] is a [Z] in [0, 2^64) and a [u_int32_t] a [Z] in
      [0, 2^32); the wrap-around of each arithmetic step is written out.
    - The union in [Prerequisite] overlays [char courseId[8]] with
      [u_int64_t num]; [courseId[i]] is byte [i] of [num], least significant
      byte first (the layout of the little-endian targets the program is
      built for).
    - An object mutated in place is passed in and returned.
    - A [throw] is a returned error; the state reached at the [throw] is
      returned with it. *)

From Stdlib Require Import ZArith Lia List String Ascii Bool Sorted Permutation.
From Stdlib Require Import OrderedTypeEx.
From Stdlib Require Import DecimalString.
From stdpp Require Import base list sorting.
Import ListNotations.

Local Open Scope string_scope.
Local Open Scope list_scope.
Local Open Scope Z_scope.

(** [#define DEFAULT_PREREQUISITE_TABLE_SIZE 27] *)
Definition DEFAULT_PREREQUISITE_TABLE_SIZE : Z := 27.

Definition u_int64_max : Z := 2 ^ 64.
Definition u_int32_max : Z := 2 ^ 32.

(** [endl], as the text it adds to a stream. *)
Definition endl : string := String "010"%char EmptyString.

(** [operator<<] on an [int]: its decimal digits, after a minus sign when
    it is negative. *)
Definition show_int (n : Z) : string := NilZero.string_of_int (Z.to_int n).

(** ** struct Prerequisite *)
Module Prerequisite.

Record t : Type := mk { num : Z }.

(** [Prerequisite()] *)
Definition new : t := mk 0.

(** [void clear()] *)
Definition clear (this : t) : t := mk 0.

(** The value of a [char] seen as an unsigned byte. *)
Definition byte (c : ascii) : Z := Z.of_N (N_of_ascii c).

(** The integer whose bytes, least significant first, are the characters
    of [s]. *)
Fixpoint pack (s : string) : Z :=
  match s with
  | EmptyString => 0
  | String c s' => byte c + 256 * pack s'
  end.

(** [void load(string id)]: [id.copy(this->courseId, 7)] overwrites the
    first [min 7 (size id)] bytes of the buffer, writes no terminator and
    leaves the other bytes as they are. *)
Definition load (this : t) (id : string) : t :=
  let n := Nat.min 7 (String.length id) in
  mk (num this / 256 ^ Z.of_nat n * 256 ^ Z.of_nat n + pack (substring 0 n id)).

(** [u_int64_t hash(u_int64_t idx, u_int64_t cap)] *)
Definition hash (this : t) (idx cap : Z) : Z :=
  ((num this + idx) mod u_int64_max) mod cap.

(** The C string that starts at byte 0 of [n]: the bytes up to the first
    zero byte, reading at most [fuel] bytes. *)
Fixpoint c_str (fuel : nat) (n : Z) : string :=
  match fuel with
  | O => EmptyString
  | S fuel' =>
      let b := n mod 256 in
      if b =? 0 then EmptyString
      else String (ascii_of_N (Z.to_N b)) (c_str fuel' (n / 256))
  end.

(** [string getString()]: [string out(this->courseId)], a C string read
    from the 8-byte buffer. [load] on a fresh union leaves the eighth byte
    zero, so the string of a stored key ends inside the buffer. *)
Definition getString (this : t) : string := c_str 8 (num this).

(** [bool empty()] *)
Definition empty (this : t) : bool := num this =? 0.

End Prerequisite.

(** ** class PrereqHashTable *)
Module PrereqHashTable.

Record t : Type := mk {
  len : Z;
  capacity : Z;
  items : list Prerequisite.t
}.

(** [PrereqHashTable(u_int64_t cap)]: [new Prerequisite[cap]] runs the
    default constructor on every element. *)
Definition new (cap : Z) : t :=
  mk 0 cap (replicate (Z.to_nat cap) Prerequisite.new).

Definition getCapacity (this : t) : Z := capacity this.
Definition getItems (this : t) : list Prerequisite.t := items this.

(** [items[i]] *)
Definition at_ (its : list Prerequisite.t) (i : Z) : Prerequisite.t :=
  default Prerequisite.new (its !! Z.to_nat i).

(** [this->items[hash].num = v] *)
Definition set_num (this : t) (hash v : Z) : t :=
  mk (len this) (capacity this)
     (<[Z.to_nat hash := Prerequisite.mk v]> (items this)).

(** The [for] loop of [insert], with [n] the number of iterations left
    ([capacity - idx]); [hash] and [idx] are [u_int32_t]. *)
Fixpoint insert_loop (n : nat) (idx : Z) (prereq : Prerequisite.t)
    (this : t) : t :=
  match n with
  | O => this
  | S n' =>
      let hash :=
        Prerequisite.hash prereq idx (capacity this) mod u_int32_max in
      if Prerequisite.num (at_ (items this) hash) =? Prerequisite.num prereq
      then this
      else if Prerequisite.num (at_ (items this) hash) =? 0
      then set_num this hash (Prerequisite.num prereq)
      else insert_loop n' ((idx + 1) mod u_int32_max) prereq this
  end.

(** [void insert(string courseId)] *)
Definition insert (this : t) (courseId : string) : t :=
  let prereq := Prerequisite.load Prerequisite.new courseId in
  insert_loop (Z.to_nat (capacity this)) 0 prereq this.

End PrereqHashTable.

(** The exceptions of the load, under the names the specification gives
    them. *)
Inductive LoadError : Type :=
  | MalformedKey
  | EmptyTitle
  | UnresolvedPrerequisite (key : string).

(** The text of the [runtime_error] thrown. *)
Definition what (e : LoadError) : string :=
  match e with
  | MalformedKey => "Error: invalid course number"
  | EmptyTitle => "Error: empty course title"
  | UnresolvedPrerequisite _ => "Prerequisite course check failed"
  end.

(** ** struct Course *)
Module Course.

Record t : Type := mk {
  number : string;
  title : string;
  prerequisites : list string
}.

(** A default-constructed [Course]. *)
Definition new : t := mk "" "" [].

(** [void clear()] *)
Definition clear (this : t) : t := mk "" "" [].

Definition delim : ascii := ","%char.

(** The strings that successive calls of [getline(stream, _, delim)]
    extract from [stringstream stream(line)] until [eofbit] is set. The
    last one ends at the end of the line, so there is always one. *)
Fixpoint fields (line : string) : list string :=
  match line with
  | EmptyString => [EmptyString]
  | String c rest =>
      if Ascii.eqb c delim then EmptyString :: fields rest
      else match fields rest with
           | f :: fs => String c f :: fs
           | [] => [String c EmptyString]
           end
  end.

(** [(pr.size() == 1 && pr[0] == '\r') || pr.empty()] *)
Definition skipped (pr : string) : bool :=
  match pr with
  | EmptyString => true
  | String c EmptyString => Ascii.eqb c "013"%char
  | _ => false
  end.

(** One turn of the [while (!stream.eof())] loop on the field [pr]. *)
Definition add_prerequisite (st : t * PrereqHashTable.t) (pr : string)
    : t * PrereqHashTable.t :=
  if skipped pr then st
  else (mk (number (fst st)) (title (fst st)) (prerequisites (fst st) ++ [pr]),
        PrereqHashTable.insert (snd st) pr).

(** [void init(string line, PrereqHashTable *table)]. The second
    [getline] finds the stream at its end when the line has no delimiter:
    it then fails and leaves [title] as it was. *)
Definition init (this : t) (line : string) (table : PrereqHashTable.t)
    : option LoadError * t * PrereqHashTable.t :=
  let fs := fields line in
  let number' := hd EmptyString fs in
  if negb (Nat.eqb (String.length number') 7)
  then (Some MalformedKey, clear this, table)
  else
    let title' := match tl fs with [] => title this | f :: _ => f end in
    if Nat.eqb (String.length title') 0
    then (Some EmptyTitle, clear this, table)
    else
      let st := fold_left add_prerequisite (tl (tl fs))
                  (mk number' title' (prerequisites this), table) in
      (None, fst st, snd st).

(** [void display()]: the text sent to [cout]. *)
Definition display (this : t) : string :=
  (number this ++ ", " ++ title this ++ String "010"%char EmptyString)%string.

(** [bool empty()] *)
Definition empty (this : t) : bool :=
  Nat.eqb (String.length (number this)) 0.

(** The [for] loop of [displayDetails] over the prerequisites still to
    print; [comma] is false on the first turn only. *)
Fixpoint details_loop (comma : bool) (prerequisites : list string) : string :=
  match prerequisites with
  | [] => EmptyString
  | c :: rest =>
      ((if comma then ", " ++ c else " " ++ c)
       ++ details_loop true rest)%string
  end.

(** [void displayDetails()]: the text sent to [cout]. *)
Definition displayDetails (this : t) : string :=
  (display this
   ++ match prerequisites this with
      | [] => EmptyString
      | _ :: _ =>
          "Prerequisites:" ++ details_loop false (prerequisites this) ++ endl
      end)%string.

End Course.

(** ** struct Node: a null pointer or a node owning its two children *)
Inductive Node : Type :=
  | nullptr
  | mkNode (course : Course.t) (left right : Node).

(** ** class BinarySearchTree, given by its [root] *)
Module BinarySearchTree.

Definition t : Type := Node.

(** [BinarySearchTree()] *)
Definition new : t := nullptr.

(** [void addNode(Node *node, Course course)]. [Insert] calls it on a
    node that exists; on a null pointer the model gives the new node. *)
Fixpoint addNode (node : Node) (course : Course.t) : Node :=
  match node with
  | nullptr => mkNode course nullptr nullptr
  | mkNode c l r =>
      if String.ltb (Course.number course) (Course.number c)
      then match l with
           | nullptr => mkNode c (mkNode course nullptr nullptr) r
           | mkNode _ _ _ => mkNode c (addNode l course) r
           end
      else match r with
           | nullptr => mkNode c l (mkNode course nullptr nullptr)
           | mkNode _ _ _ => mkNode c l (addNode r course)
           end
  end.

(** [void Insert(Course course)] *)
Definition Insert (root : t) (course : Course.t) : t :=
  match root with
  | nullptr => mkNode course nullptr nullptr
  | mkNode _ _ _ => addNode root course
  end.

(** [void inOrder(Node *node)]: the courses in the order in which
    [display] is called on them. *)
Fixpoint inOrder (node : Node) : list Course.t :=
  match node with
  | nullptr => []
  | mkNode c l r => inOrder l ++ c :: inOrder r
  end.

(** [void InOrder()]: the text sent to [cout]. *)
Definition InOrder (root : t) : string :=
  String.concat "" (map Course.display (inOrder root)).

(** [void drain()] *)
Definition drain (root : t) : t := nullptr.

(** [Course Search(string courseNumber)]: the [while] loop walks down
    from [root]. *)
Fixpoint Search (currentNode : Node) (courseNumber : string) : Course.t :=
  match currentNode with
  | nullptr => Course.new
  | mkNode c l r =>
      if String.eqb (Course.number c) courseNumber then c
      else if String.ltb courseNumber (Course.number c)
      then Search l courseNumber
      else Search r courseNumber
  end.

(** [bool Exists(string courseNumber)] *)
Definition Exists (root : t) (courseNumber : string) : bool :=
  negb (Nat.eqb (String.length (Course.number (Search root courseNumber))) 0).

End BinarySearchTree.

(** ** class Driver *)
Module Driver.

Record t : Type := mk {
  tree : BinarySearchTree.t;
  prereqTable : PrereqHashTable.t
}.

(** [Driver()] *)
Definition new : t :=
  mk BinarySearchTree.new (PrereqHashTable.new DEFAULT_PREREQUISITE_TABLE_SIZE).

(** The loop of [checkPrerequisites] over the slots still to visit: the
    course reported on [cerr] when it returns [false], [None] when it
    returns [true]. *)
Fixpoint check_loop (tree : BinarySearchTree.t)
    (prerequisites : list Prerequisite.t) : option string :=
  match prerequisites with
  | [] => None
  | p :: rest =>
      if negb (Prerequisite.empty p)
      then let course := Prerequisite.getString p in
           if negb (BinarySearchTree.Exists tree course) then Some course
           else check_loop tree rest
      else check_loop tree rest
  end.

(** [bool checkPrerequisites()]: slots [0 .. capacity - 1] in turn. *)
Definition checkPrerequisites (this : t) : option string :=
  check_loop (tree this)
    (take (Z.to_nat (PrereqHashTable.getCapacity (prereqTable this)))
          (PrereqHashTable.getItems (prereqTable this))).

(** The [while (getline(infs, line))] loop, on the lines of the file. *)
Fixpoint read_lines (lines : list string) (this : t) (num : Z)
    : option LoadError * t * Z :=
  match lines with
  | [] => (None, this, num)
  | line :: rest =>
      match Course.init Course.new line (prereqTable this) with
      | (Some e, _, table) => (Some e, mk (tree this) table, num)
      | (None, course, table) =>
          read_lines rest
            (mk (BinarySearchTree.Insert (tree this) course) table)
            (num + 1)
      end
  end.

(** The outcome of a load: the number of courses announced on [cout], or
    the exception that left [loadCourses]. *)
Inductive outcome : Type :=
  | Loaded (num : Z)
  | Failed (e : LoadError).

(** [void loadCourses()], on the lines of the file at [csvPath]. *)
Definition loadCourses (this : t) (lines : list string) : outcome * t :=
  let this1 := mk (BinarySearchTree.drain (tree this)) (prereqTable this) in
  match read_lines lines this1 0 with
  | (Some e, this2, _) => (Failed e, this2)
  | (None, this2, num) =>
      match checkPrerequisites this2 with
      | Some course => (Failed (UnresolvedPrerequisite course), this2)
      | None => (Loaded num, this2)
      end
  end.

(** [void printCourses()]: the listing sent to [cout] after the header. *)
Definition printCourses (this : t) : string :=
  BinarySearchTree.InOrder (tree this).

(** [typedef enum { ... } MenuChoice] *)
Definition LoadCourses : Z := 1.
Definition DisplayCourses : Z := 2.
Definition FindCourse : Z := 3.
Definition Exit : Z := 9.

(** [const char * menuText] *)
Definition menuText : string :=
  (endl
   ++ "  /==============================\" ++ endl
   ++ "  |  Menu                        |" ++ endl
   ++ "  |    1. Load Courses           |" ++ endl
   ++ "  |    2. Display Courses        |" ++ endl
   ++ "  |    3. Find Course by number  |" ++ endl
   ++ "  |    9. Exit                   |" ++ endl
   ++ "  \==============================/" ++ endl)%string.

(** What [std::stoi] does on a line: the [int] it returns, or the exception
    it throws. *)
Inductive stoi_result : Type :=
  | stoi_value (c : Z)
  | stoi_invalid_argument
  | stoi_out_of_range.

(** What a call of [menu] does on the lines that [cin] still has: it
    returns a choice, or the [out_of_range] that [stoi] threw leaves it
    uncaught, or it never returns. It never returns when every line is
    rejected: at the end of the input [getline] fails and leaves the line
    read before, which was rejected, or the empty string, on which
    [std::stoi] throws [invalid_argument]; the line is rejected again and
    the [for (;;)] loop goes round for ever ([menu_rounds] below).
    [Chosen] and [MenuThrew] come with the lines left and the text sent to
    [cout] and to [cerr]; [MenuSpins] with the text sent up to the first
    read that fails, after which the menu and the message are sent again
    and again. *)
Inductive menu_result : Type :=
  | Chosen (choice : Z) (cin : list string) (cout cerr : string)
  | MenuThrew (cin : list string) (cout cerr : string)
  | MenuSpins (cout cerr : string).

(** The [switch] of [menu]: the cases that return. *)
Definition is_choice (c : Z) : bool :=
  (c =? LoadCourses) || (c =? DisplayCourses) || (c =? FindCourse)
  || (c =? Exit).

(** [MenuChoice menu()], with [stoi] as the library provides it on the
    lines read. The text already sent to the two streams is passed in. *)
Fixpoint menu (stoi : string -> stoi_result) (cin : list string)
    (cout cerr : string) : menu_result :=
  let cout1 := (cout ++ menuText ++ endl ++ "Enter choice: ")%string in
  match cin with
  | [] => MenuSpins cout1 cerr
  | s :: cin' =>
      match stoi s with
      | stoi_invalid_argument =>
          menu stoi cin' cout1
            (cerr ++ s ++ " is not a valid option." ++ endl)%string
      | stoi_out_of_range => MenuThrew cin' cout1 cerr
      | stoi_value c =>
          if is_choice c then Chosen c cin' cout1 cerr
          else menu stoi cin' cout1
                 (cerr ++ show_int c ++ " is not a valid option." ++ endl)%string
      end
  end.

(** [getline(cin, s)] in [menu]. At the end of the input the read fails:
    the string is emptied when this read is the one that meets the end
    (the stream was good, [str.erase()] ran), and left as it was when the
    stream had the end or a failure flagged already. [erased] tells which;
    a string emptied once stays empty. *)
Definition getline_menu (erased : bool) (s : string) (cin : list string)
    : string * list string :=
  match cin with
  | [] => (if erased then EmptyString else s, [])
  | l :: cin' => (l, cin')
  end.

(** What [menu] has done after some rounds of its loop: it has left the
    loop as [menu_result] tells, or it is still in the loop, with the
    string [s], the lines left and the text sent so far. *)
Inductive rounds_result : Type :=
  | Done (r : menu_result)
  | Looping (s : string) (cin : list string) (cout cerr : string).

(** The [for (;;)] loop of [menu] round by round, for [rounds] rounds and
    with the failing reads: the loop as the source has it, that [menu]
    above is checked against. *)
Fixpoint menu_rounds (rounds : nat) (stoi : string -> stoi_result)
    (erased : bool) (s : string) (cin : list string) (cout cerr : string)
    : rounds_result :=
  match rounds with
  | O => Looping s cin cout cerr
  | S rounds' =>
      let cout1 := (cout ++ menuText ++ endl ++ "Enter choice: ")%string in
      let (s1, cin1) := getline_menu erased s cin in
      match stoi s1 with
      | stoi_invalid_argument =>
          menu_rounds rounds' stoi erased s1 cin1 cout1
            (cerr ++ s1 ++ " is not a valid option." ++ endl)%string
      | stoi_out_of_range => Done (MenuThrew cin1 cout1 cerr)
      | stoi_value c =>
          if is_choice c then Done (Chosen c cin1 cout1 cerr)
          else menu_rounds rounds' stoi erased s1 cin1 cout1
                 (cerr ++ show_int c ++ " is not a valid option." ++ endl)%string
      end
  end.

(** The text that [loadCourses] sends to [cout] and to [cerr]. *)
Definition loadCourses_cout (o : outcome) : string :=
  match o with
  | Loaded num => (endl ++ "Loaded " ++ show_int num ++ " courses" ++ endl)%string
  | Failed _ => EmptyString
  end.

Definition loadCourses_cerr (o : outcome) : string :=
  match o with
  | Failed (UnresolvedPrerequisite course) =>
      ("Prerequisite course " ++ course ++ " does not exist")%string
  | _ => EmptyString
  end.

(** [void printCourses()]: all the text sent to [cout]. *)
Definition printCourses_cout (this : t) : string :=
  (endl ++ "  Here is a sample schedule:" ++ endl ++ endl
   ++ printCourses this)%string.

(** [void search()] on the line [courseNumber] read from [cin]: the text
    sent to [cout] and to [cerr]. *)
Definition search (this : t) (courseNumber : string) : string * string :=
  let prompt := "What course do you want to know about? " in
  if Nat.eqb (String.length courseNumber) 0
     || negb (Nat.eqb (String.length courseNumber) 7)
  then (prompt, (endl ++ "Invalid course number" ++ endl)%string)
  else
    let course := BinarySearchTree.Search (tree this) courseNumber in
    if Course.empty course
    then ((prompt ++ endl ++ "No matching course found." ++ endl)%string,
          EmptyString)
    else ((prompt ++ endl ++ Course.displayDetails course)%string,
          EmptyString).

(** An exception that nothing catches: it leaves [run] and [main]. *)
Inductive uncaught : Type :=
  | uncaught_runtime_error (e : LoadError)
  | uncaught_out_of_range.

(** What [run] does: it returns after [Exit], an exception leaves it, or
    it never returns, [menu] going round for ever at the end of the input.
    Each comes with the [Driver] and the text sent to [cout] and to [cerr]
    (for [Spins], up to the first read that fails). [Unfinished] is not a
    behaviour of the program: the turns given to [run_loop] ran out. *)
Inductive run_result : Type :=
  | Exited (this : t) (cout cerr : string)
  | Threw (e : uncaught) (this : t) (cout cerr : string)
  | Spins (this : t) (cout cerr : string)
  | Unfinished.

(** [getline(cin, courseNumber)] in [search]: at the end of the input the
    string stays empty. *)
Definition getline_cin (cin : list string) : string * list string :=
  match cin with
  | [] => (EmptyString, [])
  | s :: cin' => (s, cin')
  end.

(** The [do ... while (choice != Exit)] loop of [run], for at most [turns]
    turns. [file n] is what the file at [csvPath] holds at the load number
    [n] of the session, [loads] the number of loads so far. *)
Fixpoint run_loop (turns : nat) (stoi : string -> stoi_result)
    (file : nat -> list string) (loads : nat) (this : t)
    (cin : list string) (cout cerr : string) : run_result :=
  match turns with
  | O => Unfinished
  | S turns' =>
      match menu stoi cin cout cerr with
      | MenuSpins cout1 cerr1 => Spins this cout1 cerr1
      | MenuThrew _ cout1 cerr1 => Threw uncaught_out_of_range this cout1 cerr1
      | Chosen choice cin1 cout1 cerr1 =>
          if choice =? LoadCourses then
            match loadCourses this (file loads) with
            | (Failed e, this1) =>
                Threw (uncaught_runtime_error e) this1 cout1
                  (cerr1 ++ loadCourses_cerr (Failed e))%string
            | (Loaded num, this1) =>
                run_loop turns' stoi file (S loads) this1 cin1
                  (cout1 ++ loadCourses_cout (Loaded num))%string cerr1
            end
          else if choice =? DisplayCourses then
            run_loop turns' stoi file loads this cin1
              (cout1 ++ printCourses_cout this)%string cerr1
          else if choice =? FindCourse then
            let (courseNumber, cin2) := getline_cin cin1 in
            let (out, err) := search this courseNumber in
            run_loop turns' stoi file loads this cin2
              (cout1 ++ out)%string (cerr1 ++ err)%string
          else
            Exited this
              (cout1 ++ endl ++ "Thank you for using the course planner!"
               ++ endl ++ endl)%string
              cerr1
      end
  end.

(** [void run()]: every turn of the loop uses up a line of [cin], so one
    turn more than there are lines is enough. *)
Definition run (stoi : string -> stoi_result) (file : nat -> list string)
    (this : t) (cin : list string) : run_result :=
  run_loop (S (length cin)) stoi file O this cin
    ("Welcome to the course planner." ++ endl)%string EmptyString.

End Driver.


(** * Vocabulary of the statements *)

(** [a < b] on [std::string]. *)
Definition str_lt (a b : string) : Prop := String.ltb a b = true.

(** The keys of a sequence of courses. *)
Definition keys (cs : list Course.t) : list string := map Course.number cs.

(** The store after [Insert] of each course of [cs] in turn. *)
Definition insert_all (root : BinarySearchTree.t) (cs : list Course.t)
    : BinarySearchTree.t :=
  fold_left BinarySearchTree.Insert cs root.

(** The search-tree ordering: smaller keys to the left of a node, larger
    keys to its right. *)
Fixpoint bst (node : Node) : Prop :=
  match node with
  | nullptr => True
  | mkNode c l r =>
      Forall (fun x => str_lt (Course.number x) (Course.number c))
             (BinarySearchTree.inOrder l)
      /\ Forall (fun x => str_lt (Course.number c) (Course.number x))
                (BinarySearchTree.inOrder r)
      /\ bst l /\ bst r
  end.

(** The order of the store on courses: the order of their keys. *)
Definition key_lt (a b : Course.t) : Prop :=
  str_lt (Course.number a) (Course.number b).

(** The [while] loop of [Search] leaves through its [return] at a node
    (and not at the end, on a null pointer). *)
Fixpoint finds (node : Node) (courseNumber : string) : bool :=
  match node with
  | nullptr => false
  | mkNode c l r =>
      if String.eqb (Course.number c) courseNumber then true
      else if String.ltb courseNumber (Course.number c)
      then finds l courseNumber
      else finds r courseNumber
  end.

(** [Search] never returns the record [c], whatever the key asked for. *)
Definition never_returned (root : BinarySearchTree.t) (c : Course.t) : Prop :=
  forall k, BinarySearchTree.Search root k <> c.

(** ** The prerequisite table *)

(** [this->items[i].num] *)
Definition slot_num (t : PrereqHashTable.t) (i : Z) : Z :=
  Prerequisite.num (PrereqHashTable.at_ (PrereqHashTable.items t) i).

(** The numbers held by the slots, in slot order. *)
Definition nums (t : PrereqHashTable.t) : list Z :=
  map Prerequisite.num (PrereqHashTable.items t).

(** The slots that [checkPrerequisites] does not skip, in slot order. *)
Definition occupied (t : PrereqHashTable.t) : list Prerequisite.t :=
  List.filter (fun p => negb (Prerequisite.empty p)) (PrereqHashTable.items t).

(** The keys held by the table: the strings that the validation pass reads
    from the occupied slots and looks up in the store, in slot order. *)
Definition queries (t : PrereqHashTable.t) : list string :=
  map Prerequisite.getString (occupied t).

(** The key [k] is held by the table. *)
Definition holds (t : PrereqHashTable.t) (k : string) : bool :=
  existsb (String.eqb k) (queries t).

(** The number of slots that hold the key [k]. *)
Definition entries (t : PrereqHashTable.t) (k : string) : nat :=
  length (List.filter (String.eqb k) (queries t)).

(** Some slot of the table is empty. *)
Definition has_room (t : PrereqHashTable.t) : bool :=
  existsb (Z.eqb 0) (nums t).

(** The table after [insert] of each string of [ks] in turn. *)
Definition register_all (t : PrereqHashTable.t) (ks : list string)
    : PrereqHashTable.t :=
  fold_left PrereqHashTable.insert ks t.

(** The table after [n] calls of [insert] on the same string. *)
Fixpoint register_times (n : nat) (t : PrereqHashTable.t) (k : string)
    : PrereqHashTable.t :=
  match n with
  | O => t
  | S n' => register_times n' (PrereqHashTable.insert t k) k
  end.

(** The states of the table of a [Driver]: built by [Driver()] and changed
    by [insert] only. *)
Inductive reachable : PrereqHashTable.t -> Prop :=
  | reachable_new :
      reachable (PrereqHashTable.new DEFAULT_PREREQUISITE_TABLE_SIZE)
  | reachable_insert t k :
      reachable t -> reachable (PrereqHashTable.insert t k).

(** The shape of a table: as many slots as its capacity, which a
    [u_int32_t] index can run over, each holding seven bytes at most. *)
Definition wf (t : PrereqHashTable.t) : Prop :=
  0 < PrereqHashTable.capacity t < u_int32_max
  /\ Z.of_nat (length (PrereqHashTable.items t)) = PrereqHashTable.capacity t
  /\ Forall (fun p => 0 <= Prerequisite.num p < 256 ^ 7)
            (PrereqHashTable.items t).

(** The table [t'] is [t] with some of its empty slots filled. *)
Definition fills (t t' : PrereqHashTable.t) : Prop :=
  PrereqHashTable.capacity t' = PrereqHashTable.capacity t
  /\ forall i, 0 <= i -> slot_num t i <> 0 -> slot_num t' i = slot_num t i.

(** The slot that [insert] tries at turn [j] for the number [v]. *)
Definition probe (t : PrereqHashTable.t) (v j : Z) : Z :=
  (v + j) mod PrereqHashTable.capacity t.

(** Open addressing without removal: the slots tried before the one a
    number sits in are all taken. *)
Definition chain_ok (t : PrereqHashTable.t) : Prop :=
  forall v j, v <> 0 -> 0 <= j < PrereqHashTable.capacity t ->
    slot_num t (probe t v j) = v ->
    forall i, 0 <= i < j -> slot_num t (probe t v i) <> 0.

(** The characters [0-9A-Za-z]. *)
Definition is_alnum (c : ascii) : bool :=
  let n := Prerequisite.byte c in
  ((48 <=? n) && (n <=? 57)) || ((65 <=? n) && (n <=? 90))
  || ((97 <=? n) && (n <=? 122)).

Fixpoint all_chars (f : ascii -> bool) (s : string) : bool :=
  match s with
  | EmptyString => true
  | String c s' => f c && all_chars f s'
  end.

(** The format of a course key: seven alphanumeric characters. *)
Definition key_format (k : string) : bool :=
  Nat.eqb (String.length k) 7 && all_chars is_alnum k.

(** No character of [s] is the zero byte. *)
Definition nul_free (s : string) : bool :=
  all_chars (fun c => negb (Prerequisite.byte c =? 0)) s.

(** The number that [insert] looks for and stores for the string [k]. *)
Definition key_num (k : string) : Z :=
  Prerequisite.num (Prerequisite.load Prerequisite.new k).

(** ** The lines of the catalog *)

(** The key field of a line: the text before the first delimiter. *)
Definition key_field (line : string) : string :=
  hd EmptyString (Course.fields line).

(** The title field of a line: the text between the first and the second
    delimiter, empty when the line has no delimiter. *)
Definition title_field (line : string) : string :=
  match tl (Course.fields line) with
  | [] => EmptyString
  | f :: _ => f
  end.

(** The prerequisite fields of a line that the parser does not skip. *)
Definition prereq_fields (line : string) : list string :=
  List.filter (fun pr => negb (Course.skipped pr))
    (tl (tl (Course.fields line))).

(** The line passes both checks of the parser. *)
Definition parse_ok (line : string) : bool :=
  Nat.eqb (String.length (key_field line)) 7
  && negb (Nat.eqb (String.length (title_field line)) 0).

(** The record that the parser builds from a line. *)
Definition course_of (line : string) : Course.t :=
  Course.mk (key_field line) (title_field line) (prereq_fields line).

(** The prerequisite fields registered by the lines of a catalog. *)
Definition registered (lines : list string) : list string :=
  concat (map prereq_fields lines).

(** The first of the keys [qs] without a record in the store. *)
Definition first_unresolved (root : BinarySearchTree.t) (qs : list string)
    : option string :=
  List.find (fun q => negb (BinarySearchTree.Exists root q)) qs.

(** ** Sample data *)

(** Twenty-seven keys, as many as the table of a [Driver] has slots. *)
Definition full_keys : list string :=
  ["CSCI101"; "CSCI102"; "CSCI103"; "CSCI104"; "CSCI105"; "CSCI106";
   "CSCI107"; "CSCI108"; "CSCI109"; "CSCI110"; "CSCI111"; "CSCI112";
   "CSCI113"; "CSCI114"; "CSCI115"; "CSCI116"; "CSCI117"; "CSCI118";
   "CSCI119"; "CSCI120"; "CSCI121"; "CSCI122"; "CSCI123"; "CSCI124";
   "CSCI125"; "CSCI126"; "CSCI127"].

(** The table of a fresh [Driver] after these keys were registered. *)
Definition full_table : PrereqHashTable.t :=
  register_all (PrereqHashTable.new DEFAULT_PREREQUISITE_TABLE_SIZE) full_keys.

Definition sample_courses : list Course.t :=
  [Course.mk "CSCI300" "Algorithms" ["CSCI200"];
   Course.mk "CSCI100" "Intro" [];
   Course.mk "MATH201" "Discrete Mathematics" [];
   Course.mk "CSCI200" "Data Structures" ["CSCI100"]].

Definition dup_first : Course.t := Course.mk "CSCI100" "Intro" [].
Definition dup_second : Course.t := Course.mk "CSCI100" "Introduction" [].

(** A catalog of twenty-eight courses: one for each of the twenty-seven
    keys, and a last one that lists them all as prerequisites, and then a
    key that no course has. *)
Definition overfull_catalog : list string :=
  map (fun k => (k ++ ",Course")%string) full_keys
  ++ [("CSCI200,Capstone," ++ String.concat "," (full_keys ++ ["CSCI999"]))%string].

(** A catalog, and a later version of the file without prerequisites. *)
Definition catalog_v1 : list string :=
  ["CSCI100,Intro"; "CSCI200,Data Structures,CSCI100"].
Definition catalog_v2 : list string :=
  ["CSCI200,Data Structures"].

(** A valid catalog. *)
Definition valid_catalog : list string :=
  ["CSCI300,Algorithms,CSCI200"; "CSCI100,Intro,";
   "CSCI200,Data Structures,CSCI100"].

(** ** Measures of the store *)

(** [a <= b] on the keys of two courses. *)
Definition key_le (a b : Course.t) : Prop :=
  String.ltb (Course.number b) (Course.number a) = false.

(** The ordering that [addNode] keeps whatever is inserted: smaller keys to
    the left of a node, equal or larger keys to its right. *)
Fixpoint ordered (node : Node) : Prop :=
  match node with
  | nullptr => True
  | mkNode c l r =>
      Forall (fun x => str_lt (Course.number x) (Course.number c))
             (BinarySearchTree.inOrder l)
      /\ Forall (fun x => String.ltb (Course.number x) (Course.number c) = false)
                (BinarySearchTree.inOrder r)
      /\ ordered l /\ ordered r
  end.

(** The list [l] with [c] put before its first record of a larger key:
    after the records of smaller or equal key. *)
Fixpoint place (c : Course.t) (l : list Course.t) : list Course.t :=
  match l with
  | [] => [c]
  | x :: l' =>
      if String.ltb (Course.number c) (Course.number x) then c :: x :: l'
      else x :: place c l'
  end.

(** Insertion sort by key that keeps records of equal key in the order
    of [cs]. *)
Definition stable_sort (cs : list Course.t) : list Course.t :=
  fold_left (fun l c => place c l) cs [].

(** The tree in which every node has a right child only. *)
Fixpoint spine (cs : list Course.t) : Node :=
  match cs with
  | [] => nullptr
  | c :: cs' => mkNode c nullptr (spine cs')
  end.

(** The number of nodes on the longest path from the root down. *)
Fixpoint height (node : Node) : nat :=
  match node with
  | nullptr => O
  | mkNode _ l r => S (Nat.max (height l) (height r))
  end.

(** The number of nodes that the loop of [Search] visits. *)
Fixpoint visited (node : Node) (courseNumber : string) : nat :=
  match node with
  | nullptr => O
  | mkNode c l r =>
      if String.eqb (Course.number c) courseNumber then 1%nat
      else if String.ltb courseNumber (Course.number c)
      then S (visited l courseNumber)
      else S (visited r courseNumber)
  end.

(** ** The session *)

(** The loop of [menu] goes on after the line [s]: [stoi] throws
    [invalid_argument] on it, or returns a number that is no choice. *)
Definition rejected (stoi : string -> Driver.stoi_result) (s : string)
    : Prop :=
  stoi s = Driver.stoi_invalid_argument
  \/ exists c, stoi s = Driver.stoi_value c /\ Driver.is_choice c = false.

(** The text [s] sent [n] times. *)
Fixpoint repeated (n : nat) (s : string) : string :=
  match n with
  | O => EmptyString
  | S n' => (s ++ repeated n' s)%string
  end.

(** [run] came to its end: it returned, or an exception left it. *)
Definition ended (r : Driver.run_result) : Prop :=
  match r with
  | Driver.Exited _ _ _ | Driver.Threw _ _ _ _ => True
  | Driver.Spins _ _ _ | Driver.Unfinished => False
  end.

(** A [stoi] for lines of one decimal digit, the rest being no numbers. *)
Definition stoi_digit (s : string) : Driver.stoi_result :=
  match s with
  | String c EmptyString =>
      let n := Prerequisite.byte c in
      if (48 <=? n) && (n <=? 57) then Driver.stoi_value (n - 48)
      else Driver.stoi_invalid_argument
  | _ => Driver.stoi_invalid_argument
  end.

(** * The order on strings *)

Section StringOrder.

Lemma str_lt_irrefl (a : string) : ~ str_lt a a.
Proof.
  unfold str_lt, String.ltb.
  assert (H : String.compare a a = Eq) by (apply String_as_OT.cmp_eq; reflexivity).
  rewrite H. discriminate.
Qed.

Lemma ltb_irrefl (a : string) : String.ltb a a = false.
Proof.
  destruct (String.ltb a a) eqn:E; [|reflexivity].
  exfalso. exact (str_lt_irrefl a E).
Qed.

Lemma str_lt_trans (a b c : string) : str_lt a b -> str_lt b c -> str_lt a c.
Proof.
  unfold str_lt, String.ltb. intros Hab Hbc.
  destruct (String.compare a b) eqn:E1; try discriminate.
  destruct (String.compare b c) eqn:E2; try discriminate.
  apply String_as_OT.cmp_lt in E1, E2.
  pose proof (String_as_OT.lt_trans _ _ _ E1 E2) as H.
  apply String_as_OT.cmp_lt in H. unfold String_as_OT.cmp in H.
  rewrite H. reflexivity.
Qed.

Lemma str_lt_asym (a b : string) : str_lt a b -> ~ str_lt b a.
Proof. intros H1 H2. exact (str_lt_irrefl a (str_lt_trans _ _ _ H1 H2)). Qed.

Lemma str_lt_total (a b : string) :
  String.ltb a b = false -> String.ltb b a = false -> a = b.
Proof.
  unfold String.ltb. rewrite (String.compare_antisym b a).
  destruct (String.compare a b) eqn:E; simpl; try discriminate.
  intros _ _. apply String.compare_eq_iff. exact E.
Qed.

Lemma str_lt_neq (a b : string) : str_lt a b -> a <> b.
Proof. intros H ->. exact (str_lt_irrefl b H). Qed.

Lemma existsb_eqb_In (k : string) (l : list string) :
  existsb (String.eqb k) l = true -> In k l.
Proof.
  intros H. apply existsb_exists in H. destruct H as (x & Hx & E).
  apply String.eqb_eq in E. subst x. exact Hx.
Qed.

End StringOrder.

(** * The ordered course store *)

Section Store.

Import BinarySearchTree.

Lemma Insert_addNode (root : Node) (x : Course.t) :
  Insert root x = addNode root x.
Proof. destruct root; reflexivity. Qed.

Lemma addNode_mkNode (c x : Course.t) (l r : Node) :
  addNode (mkNode c l r) x =
    if String.ltb (Course.number x) (Course.number c)
    then mkNode c (addNode l x) r
    else mkNode c l (addNode r x).
Proof. simpl. destruct l, r; reflexivity. Qed.

Lemma inOrder_addNode (node : Node) (x : Course.t) :
  Permutation (inOrder (addNode node x)) (x :: inOrder node).
Proof.
  induction node as [|c l IHl r IHr]; [reflexivity|].
  rewrite addNode_mkNode.
  destruct (String.ltb _ _); cbn [inOrder].
  - rewrite IHl. reflexivity.
  - rewrite IHr.
    transitivity (inOrder l ++ x :: c :: inOrder r).
    + apply Permutation_app_head, perm_swap.
    + symmetry. apply Permutation_middle.
Qed.

Lemma inOrder_insert_all (cs : list Course.t) (root : Node) :
  Permutation (inOrder (insert_all root cs)) (inOrder root ++ cs).
Proof.
  unfold insert_all. revert root.
  induction cs as [|x cs IH]; intros root; simpl.
  - rewrite app_nil_r. reflexivity.
  - rewrite IH, Insert_addNode, inOrder_addNode.
    simpl. apply Permutation_middle.
Qed.

Lemma bst_addNode (node : Node) (x : Course.t) :
  bst node ->
  ~ In (Course.number x) (keys (inOrder node)) ->
  bst (addNode node x).
Proof.
  induction node as [|c l IHl r IHr]; intros Hb Hx.
  - simpl. repeat split; constructor.
  - rewrite addNode_mkNode. destruct Hb as (Hl & Hr & Hbl & Hbr).
    cbn [inOrder] in Hx. unfold keys in Hx, IHl, IHr.
    rewrite map_app, in_app_iff in Hx. simpl in Hx.
    destruct (String.ltb _ _) eqn:E; cbn [bst].
    + split; [|split; [assumption|split; [|assumption]]].
      * eapply Permutation_Forall; [symmetry; apply inOrder_addNode|].
        constructor; assumption.
      * apply IHl; [assumption|]. intros H. apply Hx. left. exact H.
    + split; [assumption|split; [|split; [assumption|]]].
      * eapply Permutation_Forall; [symmetry; apply inOrder_addNode|].
        constructor; [|assumption].
        destruct (String.ltb (Course.number c) (Course.number x)) eqn:E2;
          [exact E2|].
        exfalso. apply Hx. right. left. apply str_lt_total; assumption.
      * apply IHr; [assumption|]. intros H. apply Hx. right. right. exact H.
Qed.

Lemma bst_insert_all (cs : list Course.t) (root : Node) :
  bst root ->
  NoDup (keys (inOrder root ++ cs)) ->
  bst (insert_all root cs).
Proof.
  unfold insert_all. revert root.
  induction cs as [|x cs IH]; intros root Hb Hnd; simpl; [assumption|].
  rewrite Insert_addNode. unfold keys in *.
  apply IH.
  - apply bst_addNode; [assumption|].
    rewrite map_app in Hnd. apply NoDup_app in Hnd.
    destruct Hnd as (_ & Hnd & _). intros Hin.
    apply (Hnd (Course.number x)).
    + apply list_elem_of_In. exact Hin.
    + simpl. left.
  - rewrite inOrder_addNode. simpl.
    rewrite map_app in Hnd. simpl in Hnd.
    rewrite <- Permutation_middle in Hnd. rewrite map_app. exact Hnd.
Qed.

Lemma bst_sorted (node : Node) :
  bst node -> StronglySorted key_lt (inOrder node).
Proof.
  induction node as [|c l IHl r IHr]; simpl; [constructor|].
  intros (Hl & Hr & Hbl & Hbr).
  apply StronglySorted_app. split; [|split; [auto|]].
  - intros x1 x2 H1 H2. rewrite List.Forall_forall in Hl, Hr.
    apply list_elem_of_In in H1. specialize (Hl _ H1).
    apply list_elem_of_In in H2. destruct H2 as [<-|H2]; [exact Hl|].
    exact (str_lt_trans _ _ _ Hl (Hr _ H2)).
  - constructor; auto.
Qed.

Lemma sorted_keys (cs : list Course.t) :
  StronglySorted key_lt cs -> StronglySorted str_lt (keys cs).
Proof.
  induction 1 as [|c cs _ IH Hc]; simpl; constructor; [assumption|].
  rewrite List.Forall_forall in *. intros k Hk.
  apply in_map_iff in Hk. destruct Hk as (x & <- & Hx). exact (Hc _ Hx).
Qed.

Lemma Search_held (node : Node) (c : Course.t) :
  bst node -> In c (inOrder node) -> Search node (Course.number c) = c.
Proof.
  induction node as [|c0 l IHl r IHr]; simpl; [contradiction|].
  intros (Hl & Hr & Hbl & Hbr) Hin.
  rewrite List.Forall_forall in Hl, Hr.
  apply in_app_or in Hin. destruct Hin as [Hin|[->|Hin]].
  - pose proof (Hl _ Hin) as Hlt.
    apply str_lt_neq in Hlt as Hne.
    apply not_eq_sym, String.eqb_neq in Hne. rewrite Hne, Hlt. auto.
  - rewrite String.eqb_refl. reflexivity.
  - pose proof (Hr _ Hin) as Hlt.
    apply str_lt_neq in Hlt as Hne.
    apply String.eqb_neq in Hne. rewrite Hne.
    destruct (String.ltb (Course.number c) (Course.number c0)) eqn:E.
    + exfalso. exact (str_lt_asym _ _ Hlt E).
    + auto.
Qed.

Lemma Search_absent (node : Node) (k : string) :
  ~ In k (keys (inOrder node)) -> Search node k = Course.new.
Proof.
  induction node as [|c l IHl r IHr]; simpl; [reflexivity|].
  unfold keys in *. rewrite map_app, in_app_iff. simpl. intros Hk.
  destruct (String.eqb_spec (Course.number c) k) as [Heq|Hne].
  - exfalso. apply Hk. right. left. exact Heq.
  - destruct (String.ltb k (Course.number c)); [apply IHl|apply IHr]; tauto.
Qed.

Lemma Search_addNode_other (node : Node) (x : Course.t) (k : string) :
  Course.number x <> k -> Search (addNode node x) k = Search node k.
Proof.
  intros Hne. induction node as [|c l IHl r IHr].
  - simpl. apply String.eqb_neq in Hne. rewrite Hne.
    destruct (String.ltb _ _); reflexivity.
  - rewrite addNode_mkNode.
    destruct (String.ltb (Course.number x) (Course.number c)); simpl;
      destruct (String.eqb (Course.number c) k); try reflexivity;
      destruct (String.ltb k (Course.number c)); auto.
Qed.

Lemma Search_addNode_shadowed (node : Node) (x : Course.t) :
  finds node (Course.number x) = true ->
  Search (addNode node x) (Course.number x) = Search node (Course.number x).
Proof.
  induction node as [|c l IHl r IHr]; [discriminate|].
  rewrite addNode_mkNode. simpl.
  destruct (String.eqb (Course.number c) (Course.number x)) eqn:E.
  - intros _. destruct (String.ltb _ _); simpl; rewrite E; reflexivity.
  - destruct (String.ltb _ _) eqn:E2; simpl; rewrite E, E2; auto.
Qed.

Lemma Search_addNode_fresh (node : Node) (x : Course.t) :
  finds node (Course.number x) = false ->
  Search (addNode node x) (Course.number x) = x.
Proof.
  induction node as [|c l IHl r IHr].
  - intros _. simpl. rewrite String.eqb_refl. reflexivity.
  - rewrite addNode_mkNode. simpl.
    destruct (String.eqb (Course.number c) (Course.number x)) eqn:E;
      [discriminate|].
    destruct (String.ltb _ _) eqn:E2; simpl; rewrite E, ?E2; auto.
Qed.

Lemma finds_addNode (node : Node) (x : Course.t) :
  finds (addNode node x) (Course.number x) = true.
Proof.
  induction node as [|c l IHl r IHr].
  - simpl. rewrite String.eqb_refl. reflexivity.
  - rewrite addNode_mkNode.
    destruct (String.ltb _ _) eqn:E2; simpl;
      destruct (String.eqb (Course.number c) (Course.number x));
      rewrite ?E2; auto.
Qed.

Lemma Search_addNode_again (node : Node) (x y : Course.t) (k : string) :
  Course.number x = Course.number y ->
  Search (addNode (addNode node x) y) k = Search (addNode node x) k.
Proof.
  intros Hxy.
  destruct (String.eqb_spec (Course.number y) k) as [<-|Hne].
  - apply Search_addNode_shadowed. rewrite <- Hxy. apply finds_addNode.
  - apply Search_addNode_other. exact Hne.
Qed.

End Store.

(** * Claims on the ordered course store *)

(** C1. Courses with pairwise distinct keys, inserted in any order: the
    in-order enumeration of the store lists their keys in strictly
    increasing order. The enumeration holds exactly the inserted records,
    and is the same for every permutation of the insertion order. *)
Theorem list_ascending_strictly_increasing (cs : list Course.t) :
  NoDup (keys cs) ->
  StronglySorted str_lt
    (keys (BinarySearchTree.inOrder (insert_all BinarySearchTree.new cs)))
  /\ Permutation (BinarySearchTree.inOrder (insert_all BinarySearchTree.new cs)) cs
  /\ forall cs', Permutation cs' cs ->
       StronglySorted str_lt
         (keys (BinarySearchTree.inOrder (insert_all BinarySearchTree.new cs')))
       /\ BinarySearchTree.inOrder (insert_all BinarySearchTree.new cs')
          = BinarySearchTree.inOrder (insert_all BinarySearchTree.new cs).
Proof.
  intros Hnd.
  assert (Hs : forall l, Permutation l cs ->
             StronglySorted key_lt
               (BinarySearchTree.inOrder (insert_all BinarySearchTree.new l))).
  { intros l Hl. apply bst_sorted, bst_insert_all; [exact I|]. simpl.
    unfold keys in *. rewrite Hl. exact Hnd. }
  split; [apply sorted_keys, Hs; reflexivity|].
  split; [apply (inOrder_insert_all cs nullptr)|].
  intros cs' Hp. split; [apply sorted_keys, Hs; exact Hp|].
  apply (StronglySorted_unique_strong key_lt).
  - intros x1 x2 _ _ H1 H2. exfalso. exact (str_lt_asym _ _ H1 H2).
  - apply Hs. exact Hp.
  - apply Hs. reflexivity.
  - rewrite (inOrder_insert_all cs' nullptr), (inOrder_insert_all cs nullptr).
    simpl. exact Hp.
Qed.

Lemma sample_courses_distinct : NoDup (keys sample_courses).
Proof.
  repeat (apply NoDup_cons; split;
          [rewrite ?elem_of_cons, elem_of_nil; intuition discriminate|]).
  apply NoDup_nil. exact I.
Qed.

Lemma list_ascending_strictly_increasing_witness :
  NoDup (keys sample_courses)
  /\ StronglySorted str_lt
       (keys (BinarySearchTree.inOrder
                (insert_all BinarySearchTree.new sample_courses)))
  /\ keys (BinarySearchTree.inOrder
             (insert_all BinarySearchTree.new sample_courses))
     = ["CSCI100"; "CSCI200"; "CSCI300"; "MATH201"].
Proof.
  split; [exact sample_courses_distinct|].
  split; [|reflexivity].
  exact (proj1 (list_ascending_strictly_increasing sample_courses
                  sample_courses_distinct)).
Defined.

(** C2. Courses with pairwise distinct keys: [Search] on the key of an
    inserted course returns that very record (key, title and
    prerequisites); on a key that was never inserted it returns the empty
    record, and [Exists] is [false]. *)
Theorem lookup_correct (cs : list Course.t) :
  NoDup (keys cs) ->
  (forall c, In c cs ->
     BinarySearchTree.Search (insert_all BinarySearchTree.new cs)
       (Course.number c) = c)
  /\ (forall k, ~ In k (keys cs) ->
        BinarySearchTree.Search (insert_all BinarySearchTree.new cs) k
          = Course.new
        /\ BinarySearchTree.Exists (insert_all BinarySearchTree.new cs) k
          = false).
Proof.
  intros Hnd.
  pose proof (inOrder_insert_all cs nullptr) as Hp. simpl in Hp.
  split.
  - intros c Hc. apply Search_held.
    + apply bst_insert_all; [exact I|exact Hnd].
    + eapply Permutation_in; [symmetry; exact Hp|exact Hc].
  - intros k Hk.
    assert (Hs : BinarySearchTree.Search
                   (insert_all BinarySearchTree.new cs) k = Course.new).
    { apply Search_absent. intros Hin. apply Hk.
      unfold keys in *. eapply Permutation_in; [|exact Hin].
      apply Permutation_map. exact Hp. }
    split; [exact Hs|].
    unfold BinarySearchTree.Exists. rewrite Hs. reflexivity.
Qed.

Lemma lookup_correct_witness :
  NoDup (keys sample_courses)
  /\ BinarySearchTree.Search (insert_all BinarySearchTree.new sample_courses)
       "CSCI200"
     = Course.mk "CSCI200" "Data Structures" ["CSCI100"]
  /\ BinarySearchTree.Exists (insert_all BinarySearchTree.new sample_courses)
       "CSCI999"
     = false.
Proof.
  split; [exact sample_courses_distinct|].
  destruct (lookup_correct sample_courses sample_courses_distinct)
    as [Hin Hout].
  split.
  - apply (Hin (Course.mk "CSCI200" "Data Structures" ["CSCI100"])).
    simpl. auto.
  - apply (Hout "CSCI999"). simpl. intuition discriminate.
Defined.

(** * The prerequisite table *)

Section Packing.

Import Prerequisite.

Lemma byte_range (c : ascii) : 0 <= byte c < 256.
Proof.
  unfold byte. pose proof (N_ascii_bounded c) as H. lia.
Qed.

Lemma ascii_of_byte (c : ascii) : ascii_of_N (Z.to_N (byte c)) = c.
Proof. unfold byte. rewrite N2Z.id. apply ascii_N_embedding. Qed.

Lemma pack_range (s : string) : 0 <= pack s < 256 ^ Z.of_nat (String.length s).
Proof.
  induction s as [|c s IH]; simpl String.length; simpl pack.
  - simpl. lia.
  - rewrite Nat2Z.inj_succ, Z.pow_succ_r by lia.
    pose proof (byte_range c). lia.
Qed.

Lemma length_substring_le (n : nat) (s : string) :
  (String.length (substring 0 n s) <= n)%nat.
Proof.
  revert s. induction n as [|n IH]; intros [|c s]; simpl; try lia.
  specialize (IH s). lia.
Qed.

Lemma substring_min (n : nat) (s : string) :
  substring 0 (Nat.min n (String.length s)) s = substring 0 n s.
Proof.
  revert s. induction n as [|n IH]; intros [|c s]; simpl; try reflexivity.
  rewrite IH. reflexivity.
Qed.

Lemma substring_all (n : nat) (s : string) :
  (String.length s <= n)%nat -> substring 0 n s = s.
Proof.
  revert s. induction n as [|n IH]; intros [|c s]; simpl; try reflexivity;
    try lia.
  intros H. rewrite IH by lia. reflexivity.
Qed.

Lemma key_num_pack (k : string) : key_num k = pack (substring 0 7 k).
Proof.
  unfold key_num, load. cbn [num new]. rewrite Z.div_0_l.
  - rewrite substring_min. lia.
  - apply Z.pow_nonzero; lia.
Qed.

Lemma key_num_range (k : string) : 0 <= key_num k < 256 ^ 7.
Proof.
  rewrite key_num_pack.
  pose proof (pack_range (substring 0 7 k)) as H.
  pose proof (length_substring_le 7 k) as Hl.
  assert (256 ^ Z.of_nat (String.length (substring 0 7 k)) <= 256 ^ 7)
    by (apply Z.pow_le_mono_r; lia).
  lia.
Qed.

Lemma load_key_num (k : string) : load new k = mk (key_num k).
Proof. reflexivity. Qed.

(** Reading back a packed string: up to its first zero byte. *)
Lemma c_str_pack (fuel : nat) (s : string) :
  nul_free s = true ->
  (String.length s < fuel)%nat ->
  c_str fuel (pack s) = s.
Proof.
  revert s. induction fuel as [|fuel IH]; intros s Hs Hl; [lia|].
  destruct s as [|c s]; [reflexivity|].
  simpl in Hs, Hl. apply andb_prop in Hs. destruct Hs as [Hc Hs].
  apply negb_true_iff, Z.eqb_neq in Hc.
  pose proof (byte_range c) as Hb.
  cbn [c_str pack].
  assert (Hm : (byte c + 256 * pack s) mod 256 = byte c).
  { replace (byte c + 256 * pack s) with (byte c + pack s * 256) by lia.
    rewrite Z.mod_add by lia. apply Z.mod_small. exact Hb. }
  assert (Hd : (byte c + 256 * pack s) / 256 = pack s).
  { replace (byte c + 256 * pack s) with (byte c + pack s * 256) by lia.
    rewrite Z.div_add by lia. rewrite Z.div_small by exact Hb. lia. }
  rewrite Hm, Hd. apply Z.eqb_neq in Hc. rewrite Hc.
  rewrite ascii_of_byte, IH by (assumption || lia). reflexivity.
Qed.

(** A number of at most [fuel] bytes that reads back as a string of
    [fuel] characters packs that string. *)
Lemma pack_c_str (fuel : nat) (n : Z) (s : string) :
  0 <= n < 256 ^ Z.of_nat fuel ->
  c_str (S fuel) n = s ->
  String.length s = fuel ->
  pack s = n.
Proof.
  revert n s. induction fuel as [|fuel IH]; intros n s Hn Hc Hl.
  - destruct s; [|discriminate]. simpl in *. lia.
  - cbn [c_str] in Hc. destruct (Z.eqb_spec (n mod 256) 0) as [_|Hne].
    + subst s. discriminate.
    + destruct s as [|c s]; [discriminate|]. injection Hc as Hc Hs.
      simpl in Hl. injection Hl as Hl.
      rewrite Nat2Z.inj_succ, Z.pow_succ_r in Hn by lia.
      assert (Hq : 0 <= n / 256 < 256 ^ Z.of_nat fuel).
      { split; [apply Z.div_pos; lia|].
        apply Z.div_lt_upper_bound; lia. }
      specialize (IH (n / 256) s Hq Hs Hl).
      cbn [pack]. rewrite IH. subst c.
      pose proof (Z.mod_pos_bound n 256 ltac:(lia)) as Hb.
      unfold byte. rewrite N_ascii_embedding.
      * rewrite Z2N.id by lia. pose proof (Z.div_mod n 256 ltac:(lia)). lia.
      * apply N2Z.inj_lt. rewrite Z2N.id by lia. simpl. lia.
Qed.

End Packing.

Section Table.

Import PrereqHashTable.

Lemma pow_256_7 : 256 ^ 7 = 72057594037927936.
Proof. reflexivity. Qed.

Lemma u_int32_max_eq : u_int32_max = 4294967296.
Proof. reflexivity. Qed.

Lemma u_int64_max_eq : u_int64_max = 18446744073709551616.
Proof. reflexivity. Qed.

Lemma probe_range (t : PrereqHashTable.t) (v j : Z) :
  wf t -> 0 <= probe t v j < capacity t.
Proof. intros (Hc & _). apply Z.mod_pos_bound. lia. Qed.

Lemma probe_slot (t : PrereqHashTable.t) (v j : Z) :
  wf t -> (Z.to_nat (probe t v j) < length (items t))%nat.
Proof.
  intros Hwf. pose proof (probe_range t v j Hwf) as Hp.
  destruct Hwf as (_ & Hl & _). lia.
Qed.

Lemma hash_probe (t : PrereqHashTable.t) (v idx : Z) :
  wf t -> 0 <= v < 256 ^ 7 -> 0 <= idx < capacity t ->
  Prerequisite.hash (Prerequisite.mk v) idx (capacity t) mod u_int32_max
  = probe t v idx.
Proof.
  intros Hwf Hv Hidx. pose proof (probe_range t v idx Hwf) as Hp.
  destruct Hwf as (Hc & _).
  unfold Prerequisite.hash, probe in *. cbn [Prerequisite.num].
  rewrite pow_256_7 in Hv. rewrite u_int32_max_eq in Hc |- *.
  rewrite u_int64_max_eq.
  rewrite (Z.mod_small (v + idx)) by lia.
  apply Z.mod_small. lia.
Qed.

Lemma probe_inj (t : PrereqHashTable.t) (v i j : Z) :
  wf t -> 0 <= i < capacity t -> 0 <= j < capacity t ->
  probe t v i = probe t v j -> i = j.
Proof.
  intros (Hc & _) Hi Hj. unfold probe. intros H.
  assert (Hd : (i - j) mod capacity t = 0).
  { replace (i - j) with ((v + i) - (v + j)) by lia.
    rewrite Zminus_mod, H, Z.sub_diag. apply Z.mod_0_l. lia. }
  apply Z.mod_divide in Hd; [|lia]. destruct Hd as (q & Hq).
  assert (q = 0) by nia. lia.
Qed.

Lemma probe_surj (t : PrereqHashTable.t) (v s : Z) :
  wf t -> 0 <= s < capacity t ->
  exists j, 0 <= j < capacity t /\ probe t v j = s.
Proof.
  intros (Hc & _) Hs. exists ((s - v) mod capacity t). split.
  - apply Z.mod_pos_bound. lia.
  - unfold probe. rewrite Zplus_mod_idemp_r.
    replace (v + (s - v)) with s by lia. apply Z.mod_small. exact Hs.
Qed.

Lemma slot_num_set_eq (t : PrereqHashTable.t) (h v : Z) :
  (Z.to_nat h < length (items t))%nat ->
  slot_num (set_num t h v) h = v.
Proof.
  intros Hh. unfold slot_num, set_num, at_. cbn [items].
  rewrite list_lookup_insert_eq by exact Hh. reflexivity.
Qed.

Lemma slot_num_set_ne (t : PrereqHashTable.t) (h h' v : Z) :
  0 <= h -> 0 <= h' -> h <> h' ->
  slot_num (set_num t h v) h' = slot_num t h'.
Proof.
  intros Hh Hh' Hne. unfold slot_num, set_num, at_. cbn [items].
  rewrite list_lookup_insert_ne by lia. reflexivity.
Qed.

(** What the loop of [insert] does from turn [idx] on: it stops at the
    first slot that holds the number or is empty, and fills the empty
    one; or every slot it tries holds another number, and nothing
    changes. *)
Lemma insert_loop_spec (n : nat) :
  forall (idx : Z) (t : PrereqHashTable.t) (v : Z),
    wf t -> 0 <= v < 256 ^ 7 -> 0 <= idx ->
    idx + Z.of_nat n = capacity t ->
    (exists j, idx <= j < capacity t
       /\ (forall i, idx <= i < j ->
             slot_num t (probe t v i) <> 0 /\ slot_num t (probe t v i) <> v)
       /\ ((slot_num t (probe t v j) = v
            /\ insert_loop n idx (Prerequisite.mk v) t = t)
           \/ (slot_num t (probe t v j) = 0 /\ v <> 0
               /\ insert_loop n idx (Prerequisite.mk v) t
                  = set_num t (probe t v j) v)))
    \/ ((forall i, idx <= i < capacity t ->
           slot_num t (probe t v i) <> 0 /\ slot_num t (probe t v i) <> v)
        /\ insert_loop n idx (Prerequisite.mk v) t = t).
Proof.
  induction n as [|n IH]; intros idx t v Hwf Hv Hidx Hn.
  - right. split; [intros i Hi; lia|reflexivity].
  - cbn [insert_loop]. rewrite hash_probe by (assumption || lia).
    cbn [Prerequisite.num]. fold (slot_num t (probe t v idx)).
    destruct (Z.eqb_spec (slot_num t (probe t v idx)) v) as [Heq|Hne].
    { left. exists idx. split; [lia|]. split; [intros i Hi; lia|].
      left. split; [exact Heq|reflexivity]. }
    destruct (Z.eqb_spec (slot_num t (probe t v idx)) 0) as [Hz|Hnz].
    { left. exists idx. split; [lia|]. split; [intros i Hi; lia|].
      right. split; [exact Hz|]. split; [congruence|reflexivity]. }
    assert (Hw : (idx + 1) mod u_int32_max = idx + 1).
    { destruct Hwf as (Hc & _). apply Z.mod_small. lia. }
    rewrite Hw.
    destruct (IH (idx + 1) t v Hwf Hv ltac:(lia) ltac:(lia))
      as [(j & Hj & Hbefore & Hat)|(Hall & Hr)].
    + left. exists j. split; [lia|]. split; [|exact Hat].
      intros i Hi. destruct (Z.eq_dec i idx) as [->|Hi'].
      * split; assumption.
      * apply Hbefore. lia.
    + right. split; [|exact Hr].
      intros i Hi. destruct (Z.eq_dec i idx) as [->|Hi'].
      * split; assumption.
      * apply Hall. lia.
Qed.

(** [insert], by the slot at which its loop stops. *)
Lemma insert_spec (t : PrereqHashTable.t) (k : string) :
  wf t ->
  (exists j, 0 <= j < capacity t
     /\ (forall i, 0 <= i < j ->
           slot_num t (probe t (key_num k) i) <> 0
           /\ slot_num t (probe t (key_num k) i) <> key_num k)
     /\ ((slot_num t (probe t (key_num k) j) = key_num k /\ insert t k = t)
         \/ (slot_num t (probe t (key_num k) j) = 0 /\ key_num k <> 0
             /\ insert t k = set_num t (probe t (key_num k) j) (key_num k))))
  \/ ((forall i, 0 <= i < capacity t ->
         slot_num t (probe t (key_num k) i) <> 0
         /\ slot_num t (probe t (key_num k) i) <> key_num k)
      /\ insert t k = t).
Proof.
  intros Hwf. unfold insert. cbv zeta. rewrite load_key_num.
  apply insert_loop_spec; [exact Hwf|apply key_num_range|lia|].
  destruct Hwf as (Hc & _). lia.
Qed.

Lemma wf_new : wf (new DEFAULT_PREREQUISITE_TABLE_SIZE).
Proof.
  split; [split; reflexivity|]. split; [reflexivity|].
  apply List.Forall_forall. intros p Hp.
  apply list_elem_of_In, elem_of_replicate in Hp. destruct Hp as [-> _].
  simpl. rewrite pow_256_7. lia.
Qed.

Lemma wf_set_num (t : PrereqHashTable.t) (h v : Z) :
  wf t -> 0 <= v < 256 ^ 7 -> wf (set_num t h v).
Proof.
  intros (Hc & Hl & Hf) Hv. unfold wf, set_num. cbn [capacity items].
  split; [exact Hc|]. split; [rewrite length_insert; exact Hl|].
  apply Forall_insert; [exact Hf|exact Hv].
Qed.

Lemma wf_insert (t : PrereqHashTable.t) (k : string) :
  wf t -> wf (insert t k).
Proof.
  intros Hwf.
  destruct (insert_spec t k Hwf)
    as [(j & _ & _ & [(_ & ->)|(_ & _ & ->)])|(_ & ->)]; try exact Hwf.
  apply wf_set_num; [exact Hwf|apply key_num_range].
Qed.

Lemma wf_reachable (t : PrereqHashTable.t) : reachable t -> wf t.
Proof. induction 1; [apply wf_new|apply wf_insert; assumption]. Qed.

Lemma wf_register_all (ks : list string) (t : PrereqHashTable.t) :
  wf t -> wf (register_all t ks).
Proof.
  unfold register_all. revert t.
  induction ks as [|k ks IH]; intros t Hwf; simpl; [exact Hwf|].
  apply IH, wf_insert, Hwf.
Qed.

Lemma reachable_register_all (ks : list string) (t : PrereqHashTable.t) :
  reachable t -> reachable (register_all t ks).
Proof.
  unfold register_all. revert t.
  induction ks as [|k ks IH]; intros t Hr; simpl; [exact Hr|].
  apply IH, reachable_insert, Hr.
Qed.

Lemma fills_refl (t : PrereqHashTable.t) : fills t t.
Proof. split; [reflexivity|intros; reflexivity]. Qed.

Lemma fills_trans (t1 t2 t3 : PrereqHashTable.t) :
  fills t1 t2 -> fills t2 t3 -> fills t1 t3.
Proof.
  intros (Hc1 & H1) (Hc2 & H2). split; [congruence|].
  intros i Hi Hnz. rewrite <- (H1 i Hi Hnz).
  apply H2; [exact Hi|]. rewrite (H1 i Hi Hnz). exact Hnz.
Qed.

Lemma fills_set_num (t : PrereqHashTable.t) (h v : Z) :
  0 <= h -> slot_num t h = 0 -> fills t (set_num t h v).
Proof.
  intros Hh Hz. split; [reflexivity|]. intros i Hi Hnz.
  apply slot_num_set_ne; [assumption..|]. intros ->. contradiction.
Qed.

Lemma fills_insert (t : PrereqHashTable.t) (k : string) :
  wf t -> fills t (insert t k).
Proof.
  intros Hwf.
  destruct (insert_spec t k Hwf)
    as [(j & _ & _ & [(_ & ->)|(Hz & _ & ->)])|(_ & ->)];
    try apply fills_refl.
  apply fills_set_num; [|exact Hz].
  apply (probe_range t (key_num k) j Hwf).
Qed.

Lemma fills_register_all (ks : list string) (t : PrereqHashTable.t) :
  wf t -> fills t (register_all t ks).
Proof.
  unfold register_all. revert t.
  induction ks as [|k ks IH]; intros t Hwf; simpl; [apply fills_refl|].
  eapply fills_trans; [apply fills_insert, Hwf|].
  apply IH, wf_insert, Hwf.
Qed.

Lemma probe_fills (t t' : PrereqHashTable.t) (v j : Z) :
  fills t t' -> probe t' v j = probe t v j.
Proof. intros (Hc & _). unfold probe. rewrite Hc. reflexivity. Qed.

(** A call of [insert] that changed nothing changes nothing either once
    more slots are filled. *)
Lemma insert_stable (t t' : PrereqHashTable.t) (k : string) :
  wf t -> wf t' -> fills t t' ->
  insert t k = t -> insert t' k = t'.
Proof.
  intros Hwf Hwf' Hf Hs.
  pose proof Hf as (Hc & Hsame).
  destruct (insert_spec t' k Hwf')
    as [(j' & Hj' & Hb' & [(_ & ->)|(Hz' & Hv & _)])|(_ & ->)];
    try reflexivity.
  exfalso. rewrite (probe_fills t t') in Hz' by exact Hf.
  assert (Hz : slot_num t (probe t (key_num k) j') = 0).
  { destruct (Z.eq_dec (slot_num t (probe t (key_num k) j')) 0) as [E|E];
      [exact E|].
    rewrite (Hsame _ (proj1 (probe_range t _ j' Hwf)) E) in Hz'.
    contradiction. }
  assert (Hb : forall i, 0 <= i < j' ->
                 slot_num t (probe t (key_num k) i) <> key_num k).
  { intros i Hi E. destruct (Hb' i Hi) as (_ & Hne). apply Hne.
    rewrite (probe_fills t t') by exact Hf.
    rewrite (Hsame _ (proj1 (probe_range t _ i Hwf))); [exact E|].
    rewrite E. exact Hv. }
  destruct (insert_spec t k Hwf)
    as [(j & Hj & Hbj & [(Hm & _)|(Hzj & _ & Hset)])|(Hall & _)].
  - destruct (Z.lt_trichotomy j j') as [Hlt|[->|Hgt]].
    + apply (Hb j); [lia|exact Hm].
    + rewrite Hz in Hm. auto.
    + destruct (Hbj j' ltac:(lia)) as (Hnz & _). contradiction.
  - rewrite Hs in Hset.
    pose proof (slot_num_set_eq t (probe t (key_num k) j) (key_num k)
                  (probe_slot t _ j Hwf)) as E.
    rewrite <- Hset, Hzj in E. auto.
  - rewrite Hc in Hj'. destruct (Hall j' Hj') as (Hnz & _). contradiction.
Qed.

(** A second [insert] of the same string changes nothing. *)
Lemma insert_idem (t : PrereqHashTable.t) (k : string) :
  wf t -> insert (insert t k) k = insert t k.
Proof.
  intros Hwf.
  destruct (insert_spec t k Hwf)
    as [(j & Hj & Hb & [(_ & E)|(Hz & Hv & E)])|(_ & E)];
    try (rewrite E; exact E).
  pose proof (wf_insert t k Hwf) as Hwf'.
  pose proof (fills_insert t k Hwf) as Hf.
  destruct (insert_spec (insert t k) k Hwf')
    as [(j' & Hj' & Hb' & [(_ & E')|(Hz' & _ & _)])|(Hall & E')];
    try exact E'.
  exfalso. rewrite (probe_fills t _) in Hz' by exact Hf.
  pose proof (slot_num_set_eq t (probe t (key_num k) j) (key_num k)
                (probe_slot t _ j Hwf)) as Hset.
  rewrite <- E in Hset.
  destruct (Z.lt_trichotomy j j') as [Hlt|[->|Hgt]].
  - destruct (Hb' j ltac:(lia)) as (_ & Hne). apply Hne.
    rewrite (probe_fills t _) by exact Hf. exact Hset.
  - rewrite Hset in Hz'. auto.
  - destruct (Hb j' ltac:(lia)) as (Hnz & _).
    destruct Hf as (_ & Hsame).
    rewrite (Hsame _ (proj1 (probe_range t _ j' Hwf)) Hnz) in Hz'.
    contradiction.
Qed.

Lemma register_all_stable (ks : list string) (t : PrereqHashTable.t)
    (k : string) :
  wf t -> insert t k = t -> insert (register_all t ks) k = register_all t ks.
Proof.
  intros Hwf Hs.
  apply (insert_stable t); auto using wf_register_all, fills_register_all.
Qed.

(** Every string registered so far is settled: one more [insert] of it
    changes nothing. *)
Lemma register_all_settled (ks : list string) (t : PrereqHashTable.t) :
  wf t ->
  Forall (fun k => insert (register_all t ks) k = register_all t ks) ks.
Proof.
  revert t. induction ks as [|k ks IH]; intros t Hwf; constructor.
  - change (register_all t (k :: ks)) with (register_all (insert t k) ks).
    apply (register_all_stable ks (insert t k));
      [apply wf_insert, Hwf|apply insert_idem, Hwf].
  - apply (IH (insert t k)), wf_insert, Hwf.
Qed.

Lemma register_all_id (ks : list string) (t : PrereqHashTable.t) :
  Forall (fun k => insert t k = t) ks -> register_all t ks = t.
Proof.
  unfold register_all. induction 1 as [|k ks Hk _ IH]; simpl;
    [reflexivity|].
  rewrite Hk. exact IH.
Qed.

(** Registering the same strings once more changes nothing. *)
Lemma register_all_twice (ks : list string) (t : PrereqHashTable.t) :
  wf t ->
  register_all (register_all t ks) ks = register_all t ks.
Proof.
  intros Hwf. apply register_all_id, register_all_settled, Hwf.
Qed.

Lemma slot_num_In (t : PrereqHashTable.t) (s : Z) :
  wf t -> 0 <= s < capacity t -> In (slot_num t s) (nums t).
Proof.
  intros (_ & Hl & _) Hs. unfold slot_num, at_, nums.
  destruct (lookup_lt_is_Some_2 (items t) (Z.to_nat s) ltac:(lia))
    as (p & Hp).
  rewrite Hp. simpl. apply in_map, list_elem_of_In.
  eapply list_elem_of_lookup_2. exact Hp.
Qed.

Lemma In_slot_num (t : PrereqHashTable.t) (v : Z) :
  wf t -> In v (nums t) ->
  exists s, 0 <= s < capacity t /\ slot_num t s = v.
Proof.
  intros (_ & Hl & _) Hv. unfold nums in Hv.
  apply in_map_iff in Hv. destruct Hv as (p & <- & Hp).
  apply list_elem_of_In, list_elem_of_lookup_1 in Hp.
  destruct Hp as (i & Hi). pose proof (lookup_lt_Some _ _ _ Hi) as Hlt.
  exists (Z.of_nat i). split; [lia|].
  unfold slot_num, at_. rewrite Nat2Z.id, Hi. reflexivity.
Qed.

Lemma slot_num_new (c s : Z) : slot_num (new c) s = 0.
Proof.
  unfold slot_num, at_, new. cbn [items].
  destruct (replicate (Z.to_nat c) Prerequisite.new !! Z.to_nat s)
    as [p|] eqn:E; [|reflexivity].
  apply lookup_replicate in E. destruct E as [-> _]. reflexivity.
Qed.

Lemma chain_ok_new (c : Z) : chain_ok (new c).
Proof.
  intros v j Hv _ Hs. rewrite slot_num_new in Hs. congruence.
Qed.

Lemma chain_ok_insert (t : PrereqHashTable.t) (k : string) :
  wf t -> chain_ok t -> chain_ok (insert t k).
Proof.
  intros Hwf Hch.
  destruct (insert_spec t k Hwf)
    as [(j & Hj & Hb & [(_ & ->)|(Hz & Hv & E)])|(_ & ->)];
    try exact Hch.
  pose proof (fills_insert t k Hwf) as Hf. pose proof Hf as (Hc & Hsame).
  intros v jv Hvnz Hjv Hs i Hi.
  rewrite (probe_fills t _) in Hs |- * by exact Hf. rewrite Hc in Hjv.
  assert (Hkeep : forall s, 0 <= s -> slot_num t s <> 0 ->
                    slot_num (insert t k) s <> 0).
  { intros s Hs0 Hnz. rewrite (Hsame s Hs0 Hnz). exact Hnz. }
  pose proof (probe_range t v i Hwf) as Hpi.
  pose proof (probe_range t v jv Hwf) as Hpj.
  destruct (Z.eq_dec (probe t v jv) (probe t (key_num k) j)) as [Heq|Hne].
  - rewrite E, Heq in Hs.
    rewrite slot_num_set_eq in Hs by (apply probe_slot, Hwf).
    subst v.
    apply (probe_inj t _ _ _ Hwf Hjv Hj) in Heq. subst jv.
    apply Hkeep; [lia|]. apply (Hb i Hi).
  - rewrite E in Hs. rewrite slot_num_set_ne in Hs
      by (try apply (probe_range t _ j Hwf); lia || congruence).
    apply Hkeep; [lia|]. exact (Hch v jv Hvnz Hjv Hs i Hi).
Qed.

Lemma chain_ok_reachable (t : PrereqHashTable.t) :
  reachable t -> chain_ok t.
Proof.
  induction 1 as [|t k Hr IH]; [apply chain_ok_new|].
  apply chain_ok_insert; [apply wf_reachable, Hr|exact IH].
Qed.

(** Where [insert] stops at an empty slot, the number is in no slot. *)
Lemma empty_slot_fresh (t : PrereqHashTable.t) (v j : Z) :
  wf t -> chain_ok t -> v <> 0 -> 0 <= j < capacity t ->
  (forall i, 0 <= i < j -> slot_num t (probe t v i) <> v) ->
  slot_num t (probe t v j) = 0 ->
  ~ In v (nums t).
Proof.
  intros Hwf Hch Hv Hj Hb Hz Hin.
  destruct (In_slot_num t v Hwf Hin) as (s & Hs & Hsv).
  destruct (probe_surj t v s Hwf Hs) as (j' & Hj' & <-).
  destruct (Z.lt_trichotomy j' j) as [Hlt|[->|Hgt]].
  - apply (Hb j'); [lia|exact Hsv].
  - congruence.
  - apply (Hch v j' Hv Hj' Hsv j); [lia|exact Hz].
Qed.

(** A table all of whose tried slots are taken has no empty slot. *)
Lemma all_taken_full (t : PrereqHashTable.t) (v : Z) :
  wf t ->
  (forall i, 0 <= i < capacity t -> slot_num t (probe t v i) <> 0) ->
  has_room t = false.
Proof.
  intros Hwf Hall. unfold has_room.
  destruct (existsb (Z.eqb 0) (nums t)) eqn:E; [|reflexivity].
  apply existsb_exists in E. destruct E as (z & Hz & Hz0).
  apply Z.eqb_eq in Hz0. subst z.
  destruct (In_slot_num t 0 Hwf Hz) as (s & Hs & Hs0).
  destruct (probe_surj t v s Hwf Hs) as (j & Hj & <-).
  exfalso. exact (Hall j Hj Hs0).
Qed.

Lemma has_room_In (t : PrereqHashTable.t) :
  has_room t = true <-> In 0 (nums t).
Proof.
  unfold has_room. rewrite existsb_exists. split.
  - intros (z & Hz & E). apply Z.eqb_eq in E. subst z. exact Hz.
  - intros H. exists 0. split; [exact H|reflexivity].
Qed.

End Table.

Section Held.

Import PrereqHashTable.

Lemma items_set_num (t : PrereqHashTable.t) (h v : Z) :
  wf t -> 0 <= h < capacity t -> slot_num t h = 0 ->
  exists l1 l2,
    items t = l1 ++ Prerequisite.mk 0 :: l2
    /\ items (set_num t h v) = l1 ++ Prerequisite.mk v :: l2.
Proof.
  intros (_ & Hl & _) Hh Hz.
  destruct (lookup_lt_is_Some_2 (items t) (Z.to_nat h) ltac:(lia))
    as (p & Hp).
  unfold slot_num, at_ in Hz. rewrite Hp in Hz. simpl in Hz.
  destruct p as [n]. simpl in Hz. subst n.
  exists (take (Z.to_nat h) (items t)), (drop (S (Z.to_nat h)) (items t)).
  split.
  - symmetry. apply take_drop_middle. exact Hp.
  - unfold set_num. cbn [items]. apply insert_take_drop. lia.
Qed.

Lemma occupied_set_num (t : PrereqHashTable.t) (h v : Z) :
  wf t -> 0 <= h < capacity t -> slot_num t h = 0 -> v <> 0 ->
  Permutation (occupied (set_num t h v)) (Prerequisite.mk v :: occupied t).
Proof.
  intros Hwf Hh Hz Hv.
  destruct (items_set_num t h v Hwf Hh Hz) as (l1 & l2 & E1 & E2).
  unfold occupied. rewrite E1, E2, !List.filter_app. simpl.
  unfold Prerequisite.empty at 2 4. cbn [Prerequisite.num].
  apply Z.eqb_neq in Hv. rewrite Hv. simpl.
  symmetry. apply Permutation_middle.
Qed.

Lemma occupied_In (t : PrereqHashTable.t) (p : Prerequisite.t) :
  In p (occupied t) <-> In p (items t) /\ Prerequisite.num p <> 0.
Proof.
  unfold occupied. rewrite filter_In. unfold Prerequisite.empty.
  rewrite negb_true_iff, Z.eqb_neq. reflexivity.
Qed.

Lemma occupied_nums (t : PrereqHashTable.t) (v : Z) :
  In v (map Prerequisite.num (occupied t)) <-> In v (nums t) /\ v <> 0.
Proof.
  unfold nums. rewrite !in_map_iff. split.
  - intros (p & <- & Hp). apply occupied_In in Hp. destruct Hp as [Hp Hn].
    split; [exists p; auto|exact Hn].
  - intros ((p & <- & Hp) & Hn). exists p. split; [reflexivity|].
    apply occupied_In. auto.
Qed.

(** No two occupied slots of a table of the [Driver] hold the same
    number. *)
Lemma occupied_NoDup (t : PrereqHashTable.t) :
  reachable t -> NoDup (map Prerequisite.num (occupied t)).
Proof.
  induction 1 as [|t k Hr IH].
  - apply NoDup_ListNoDup. vm_compute. constructor.
  - pose proof (wf_reachable t Hr) as Hwf.
    destruct (insert_spec t k Hwf)
      as [(j & Hj & Hb & [(_ & ->)|(Hz & Hv & ->)])|(_ & ->)];
      try exact IH.
    rewrite (occupied_set_num t _ _ Hwf (probe_range t _ j Hwf) Hz Hv).
    simpl. apply NoDup_cons. split; [|exact IH].
    intros Hin. apply list_elem_of_In, occupied_nums in Hin.
    destruct Hin as [Hin _]. revert Hin.
    apply (empty_slot_fresh t (key_num k) j Hwf (chain_ok_reachable t Hr)
             Hv Hj); [|exact Hz].
    intros i Hi. apply (Hb i Hi).
Qed.

Lemma holds_In (t : PrereqHashTable.t) (k : string) :
  holds t k = true <-> In k (queries t).
Proof.
  unfold holds. rewrite existsb_exists. split.
  - intros (q & Hq & E). apply String.eqb_eq in E. subst q. exact Hq.
  - intros H. exists k. split; [exact H|apply String.eqb_refl].
Qed.

Lemma alnum_nul_free (s : string) :
  all_chars is_alnum s = true -> nul_free s = true.
Proof.
  unfold nul_free. induction s as [|c s IH]; simpl; [reflexivity|].
  intros H. apply andb_prop in H. destruct H as [Hc Hs].
  rewrite (IH Hs), andb_true_r. apply negb_true_iff, Z.eqb_neq.
  unfold is_alnum in Hc. cbv zeta in Hc. lia.
Qed.

Lemma key_format_length (k : string) :
  key_format k = true -> String.length k = 7%nat.
Proof.
  unfold key_format. intros H. apply andb_prop in H.
  destruct H as [H _]. apply Nat.eqb_eq in H. exact H.
Qed.

Lemma key_format_nul_free (k : string) :
  key_format k = true -> nul_free k = true.
Proof.
  unfold key_format. intros H. apply andb_prop in H.
  destruct H as [_ H]. apply alnum_nul_free, H.
Qed.

(** A string of at most seven characters, none of them zero, is read
    back from the slot as it was registered. *)
Lemma getString_key_num (k : string) :
  nul_free k = true -> (String.length k <= 7)%nat ->
  Prerequisite.getString (Prerequisite.mk (key_num k)) = k.
Proof.
  intros Hn Hl. unfold Prerequisite.getString. cbn [Prerequisite.num].
  rewrite key_num_pack, substring_all by exact Hl.
  apply c_str_pack; [exact Hn|lia].
Qed.

Lemma key_num_nonzero (k : string) :
  key_format k = true -> key_num k <> 0.
Proof.
  intros Hk E.
  pose proof (getString_key_num k (key_format_nul_free k Hk)) as H.
  pose proof (key_format_length k Hk) as Hl.
  rewrite E in H. specialize (H ltac:(lia)). rewrite <- H in Hl.
  discriminate.
Qed.

(** A slot that reads back as a key of seven characters holds the number
    of that key. *)
Lemma getString_key (t : PrereqHashTable.t) (p : Prerequisite.t)
    (k : string) :
  wf t -> In p (items t) -> String.length k = 7%nat ->
  Prerequisite.getString p = k -> Prerequisite.num p = key_num k.
Proof.
  intros (_ & _ & Hf) Hp Hl Hg.
  rewrite List.Forall_forall in Hf. specialize (Hf p Hp).
  rewrite key_num_pack, substring_all by lia.
  symmetry. apply (pack_c_str 7); [exact Hf|exact Hg|exact Hl].
Qed.

Lemma holds_key_num (t : PrereqHashTable.t) (k : string) :
  wf t -> key_format k = true ->
  (holds t k = true <-> In (key_num k) (nums t)).
Proof.
  intros Hwf Hk. rewrite holds_In. unfold queries. rewrite in_map_iff.
  pose proof (key_format_length k Hk) as Hl.
  split.
  - intros (p & Hg & Hp). apply occupied_In in Hp. destruct Hp as [Hp _].
    rewrite <- (getString_key t p k Hwf Hp Hl Hg).
    apply in_map. exact Hp.
  - intros Hin. apply in_map_iff in Hin. destruct Hin as (p & Hn & Hp).
    exists p. split.
    + destruct p as [n]. simpl in Hn. subst n.
      apply getString_key_num; [apply key_format_nul_free, Hk|lia].
    + apply occupied_In. split; [exact Hp|]. rewrite Hn.
      apply key_num_nonzero, Hk.
Qed.

(** The slots that read back as the key [k]. *)
Lemma entries_le_1 (t : PrereqHashTable.t) (k : string) :
  reachable t -> key_format k = true -> (entries t k <= 1)%nat.
Proof.
  intros Hr Hk. pose proof (wf_reachable t Hr) as Hwf.
  pose proof (key_format_length k Hk) as Hl.
  pose proof (occupied_NoDup t Hr) as Hnd.
  assert (Hsub : forall p, In p (occupied t) -> In p (items t))
    by (intros p Hp; apply occupied_In in Hp; tauto).
  unfold entries, queries.
  induction (occupied t) as [|p l IH]; simpl; [lia|].
  simpl in Hnd. apply NoDup_cons in Hnd. destruct Hnd as [Hp Hnd].
  rewrite list_elem_of_In in Hp.
  destruct (String.eqb_spec k (Prerequisite.getString p)) as [E|E].
  - assert (Hnil : List.filter (String.eqb k)
                     (map Prerequisite.getString l) = []).
    { clear IH Hnd. induction l as [|q l IHl]; [reflexivity|]. simpl.
      destruct (String.eqb_spec k (Prerequisite.getString q)) as [E'|E'].
      - exfalso. apply Hp. simpl. left.
        transitivity (key_num k).
        + apply (getString_key t q k); auto. apply Hsub. simpl. auto.
        + symmetry. apply (getString_key t p k); auto.
          apply Hsub. simpl. auto.
      - apply IHl.
        + intros H. apply Hp. simpl. right. exact H.
        + intros x Hx. apply Hsub. simpl in *. tauto. }
    rewrite Hnil. simpl. lia.
  - apply IH; [exact Hnd|]. intros x Hx. apply Hsub. simpl. auto.
Qed.

Lemma entries_holds (t : PrereqHashTable.t) (k : string) :
  (1 <= entries t k)%nat <-> holds t k = true.
Proof.
  rewrite holds_In. unfold entries.
  induction (queries t) as [|q l IH]; simpl.
  - split; [lia|tauto].
  - destruct (String.eqb_spec k q) as [->|E]; simpl.
    + split; [auto|lia].
    + rewrite IH. split; [auto|]. intros [H|H]; [congruence|exact H].
Qed.

End Held.

Section Registration.

Import PrereqHashTable.

Lemma queries_of_num (t : PrereqHashTable.t) (v : Z) :
  In v (nums t) -> v <> 0 ->
  In (Prerequisite.getString (Prerequisite.mk v)) (queries t).
Proof.
  intros Hin Hv. unfold nums in Hin. apply in_map_iff in Hin.
  destruct Hin as (p & Hp & Hin). destruct p as [n]. simpl in Hp. subst n.
  unfold queries. apply in_map, occupied_In. auto.
Qed.

Lemma nums_fills (t t' : PrereqHashTable.t) (v : Z) :
  wf t -> wf t' -> fills t t' -> v <> 0 -> In v (nums t) -> In v (nums t').
Proof.
  intros Hwf Hwf' (Hc & Hsame) Hv Hin.
  destruct (In_slot_num t v Hwf Hin) as (s & Hs & <-).
  rewrite <- (Hsame s) by (lia || exact Hv).
  apply slot_num_In; [exact Hwf'|lia].
Qed.

(** After [insert], the number is in a slot when the table had an empty
    slot. *)
Lemma insert_In_num (t : PrereqHashTable.t) (k : string) :
  wf t -> has_room t = true -> In (key_num k) (nums (insert t k)).
Proof.
  intros Hwf Hroom.
  destruct (insert_spec t k Hwf)
    as [(j & Hj & Hb & [(Hm & E)|(Hz & Hv & E)])|(Hall & _)].
  - rewrite E, <- Hm. apply slot_num_In; [exact Hwf|].
    apply probe_range, Hwf.
  - pose proof (wf_insert t k Hwf) as Hwf'.
    rewrite <- (slot_num_set_eq t (probe t (key_num k) j) (key_num k))
      at 1 by (apply probe_slot, Hwf).
    rewrite <- E. apply slot_num_In; [exact Hwf'|].
    destruct (fills_insert t k Hwf) as (-> & _). apply probe_range, Hwf.
  - rewrite (all_taken_full t (key_num k) Hwf) in Hroom; [discriminate|].
    intros i Hi. apply (Hall i Hi).
Qed.

(** A key that is held is found by [insert], which changes nothing. *)
Lemma insert_held (t : PrereqHashTable.t) (k : string) :
  reachable t -> key_num k <> 0 -> In (key_num k) (nums t) ->
  insert t k = t.
Proof.
  intros Hr Hv Hin. pose proof (wf_reachable t Hr) as Hwf.
  destruct (insert_spec t k Hwf)
    as [(j & Hj & Hb & [(_ & E)|(Hz & _ & _)])|(_ & E)];
    try exact E.
  exfalso. revert Hin.
  apply (empty_slot_fresh t (key_num k) j Hwf (chain_ok_reachable t Hr)
           Hv Hj); [|exact Hz].
  intros i Hi. apply (Hb i Hi).
Qed.

Lemma holds_insert_iff (t : PrereqHashTable.t) (k : string) :
  reachable t -> key_format k = true ->
  (holds (insert t k) k = true <-> holds t k = true \/ has_room t = true).
Proof.
  intros Hr Hk. pose proof (wf_reachable t Hr) as Hwf.
  pose proof (wf_insert t k Hwf) as Hwf'.
  pose proof (key_num_nonzero k Hk) as Hv.
  split.
  - intros H.
    destruct (insert_spec t k Hwf)
      as [(j & Hj & Hb & [(_ & E)|(Hz & _ & _)])|(_ & E)].
    + left. rewrite <- E. exact H.
    + right. apply has_room_In. rewrite <- Hz.
      apply slot_num_In; [exact Hwf|apply probe_range, Hwf].
    + left. rewrite <- E. exact H.
  - rewrite !holds_key_num by assumption. intros [H|H].
    + apply (nums_fills t); auto using fills_insert.
    + apply insert_In_num; assumption.
Qed.

End Registration.

(** * Claims on the prerequisite table *)

(** C4, as stated, fails: once twenty-seven other keys are registered the
    table is full, and [insert] of one more well-formed key returns without
    storing it. *)
Lemma register_full_counterexample :
  reachable full_table
  /\ key_format "CSCI999" = true
  /\ holds (PrereqHashTable.insert full_table "CSCI999") "CSCI999" = false.
Proof.
  split; [apply reachable_register_all, reachable_new|].
  split; vm_compute; reflexivity.
Qed.

(** C4, amended. On a table of the [Driver] and a well-formed key,
    [insert] leaves the key held exactly when it was held already or the
    table still had an empty slot, which it has as long as fewer slots are
    occupied than its capacity; a key held already makes the call a no-op.
    (On a full table that does not hold the key the call stores nothing.) *)
Theorem register_holds (t : PrereqHashTable.t) (k : string) :
  reachable t ->
  key_format k = true ->
  (holds (PrereqHashTable.insert t k) k = true
     <-> holds t k = true \/ has_room t = true)
  /\ (holds t k = true -> PrereqHashTable.insert t k = t)
  /\ (Z.of_nat (length (occupied t)) < PrereqHashTable.capacity t ->
      holds (PrereqHashTable.insert t k) k = true).
Proof.
  intros Hr Hk. pose proof (wf_reachable t Hr) as Hwf.
  split; [apply holds_insert_iff; assumption|]. split.
  - intros H. apply insert_held; [exact Hr|apply key_num_nonzero, Hk|].
    apply holds_key_num; assumption.
  - intros Hlt. apply holds_insert_iff; [assumption..|]. right.
    destruct (has_room t) eqn:E; [reflexivity|]. exfalso.
    assert (Hall : occupied t = PrereqHashTable.items t).
    { unfold occupied. apply forallb_filter_id. apply forallb_forall.
      intros p Hp. unfold Prerequisite.empty.
      apply negb_true_iff, Z.eqb_neq. intros Hz.
      assert (Hin : In 0 (nums t))
        by (rewrite <- Hz; apply in_map; exact Hp).
      apply has_room_In in Hin. congruence. }
    rewrite Hall in Hlt. destruct Hwf as (_ & Hl & _). lia.
Qed.

Lemma register_holds_witness :
  reachable (PrereqHashTable.new DEFAULT_PREREQUISITE_TABLE_SIZE)
  /\ key_format "CSCI100" = true
  /\ holds (PrereqHashTable.insert
              (PrereqHashTable.new DEFAULT_PREREQUISITE_TABLE_SIZE) "CSCI100")
       "CSCI100" = true.
Proof.
  split; [apply reachable_new|]. split; [reflexivity|].
  apply (register_holds (PrereqHashTable.new DEFAULT_PREREQUISITE_TABLE_SIZE)
           "CSCI100" reachable_new eq_refl).
  vm_compute. reflexivity.
Defined.

Lemma register_times_insert (n : nat) (t : PrereqHashTable.t) (k : string) :
  wf t -> register_times (S n) t k = PrereqHashTable.insert t k.
Proof.
  revert t. induction n as [|n IH]; intros t Hwf; [reflexivity|].
  change (register_times (S (S n)) t k)
    with (register_times (S n) (PrereqHashTable.insert t k) k).
  rewrite IH by (apply wf_insert, Hwf). apply insert_idem, Hwf.
Qed.

Lemma reachable_register_times (n : nat) (t : PrereqHashTable.t) (k : string) :
  reachable t -> reachable (register_times n t k).
Proof.
  revert t. induction n as [|n IH]; intros t Hr; [exact Hr|].
  simpl. apply IH, reachable_insert, Hr.
Qed.

(** C6, as stated, fails: registered three times into the full table, a
    key has no entry at all, and the validation pass never asks for it. *)
Lemma register_dedup_counterexample :
  reachable full_table
  /\ key_format "MATH201" = true
  /\ entries (register_times 3 full_table "MATH201") "MATH201" = 0%nat
  /\ entries (register_times 3 full_table "MATH201") "MATH201" <> 1%nat.
Proof.
  split; [apply reachable_register_all, reachable_new|].
  split; [|split]; vm_compute; [reflexivity..|discriminate].
Qed.

(** C6, amended. In a table of the [Driver] no two occupied slots hold the
    same key. Registering a well-formed key [N >= 1] times does what
    registering it once does and leaves at most one entry for it, so the
    validation pass asks the store for it at most once; it leaves exactly
    one entry when the key was held already or the table still had an
    empty slot. (On a full table that does not hold the key there is no
    entry.) *)
Theorem register_dedup (t : PrereqHashTable.t) (k : string) (N : nat) :
  reachable t ->
  key_format k = true ->
  (1 <= N)%nat ->
  register_times N t k = PrereqHashTable.insert t k
  /\ NoDup (map Prerequisite.num (occupied (register_times N t k)))
  /\ (entries (register_times N t k) k <= 1)%nat
  /\ (entries (register_times N t k) k = 1%nat
      <-> holds t k = true \/ has_room t = true).
Proof.
  intros Hr Hk HN. pose proof (wf_reachable t Hr) as Hwf.
  destruct N as [|n]; [lia|].
  rewrite register_times_insert by exact Hwf.
  pose proof (reachable_insert t k Hr) as Hr'.
  pose proof (entries_le_1 _ k Hr' Hk) as Hle.
  split; [reflexivity|]. split; [apply occupied_NoDup, Hr'|].
  split; [exact Hle|].
  rewrite <- holds_insert_iff by assumption.
  rewrite <- entries_holds. lia.
Qed.

Lemma register_dedup_witness :
  reachable (PrereqHashTable.new DEFAULT_PREREQUISITE_TABLE_SIZE)
  /\ key_format "CSCI100" = true
  /\ (1 <= 5)%nat
  /\ entries
       (register_times 5
          (PrereqHashTable.new DEFAULT_PREREQUISITE_TABLE_SIZE) "CSCI100")
       "CSCI100" = 1%nat.
Proof.
  split; [apply reachable_new|]. split; [reflexivity|]. split; [lia|].
  apply (register_dedup (PrereqHashTable.new DEFAULT_PREREQUISITE_TABLE_SIZE)
           "CSCI100" 5 reachable_new eq_refl ltac:(lia)).
  right. vm_compute. reflexivity.
Defined.

Lemma c_str_length (f : nat) :
  forall (fuel : nat) (n : Z),
    0 <= n < 256 ^ Z.of_nat f ->
    (String.length (Prerequisite.c_str fuel n) <= f)%nat.
Proof.
  induction f as [|f IH]; intros fuel n Hn.
  - assert (n = 0) by (simpl in Hn; lia). subst n.
    destruct fuel; simpl; lia.
  - destruct fuel as [|fuel]; [simpl; lia|]. cbn [Prerequisite.c_str].
    destruct (n mod 256 =? 0); [simpl; lia|]. simpl String.length.
    rewrite Nat2Z.inj_succ, Z.pow_succ_r in Hn by lia.
    assert (Hq : 0 <= n / 256 < 256 ^ Z.of_nat f).
    { split; [apply Z.div_pos; lia|]. apply Z.div_lt_upper_bound; lia. }
    specialize (IH fuel (n / 256) Hq). lia.
Qed.

Lemma nul_free_nonzero (s : string) :
  nul_free s = true -> s <> EmptyString -> Prerequisite.pack s <> 0.
Proof.
  destruct s as [|c s]; [congruence|]. intros H _.
  unfold nul_free in H. simpl in H. apply andb_prop in H.
  destruct H as [Hc _]. apply negb_true_iff, Z.eqb_neq in Hc.
  cbn [Prerequisite.pack].
  pose proof (byte_range c). pose proof (pack_range s). lia.
Qed.

Lemma substring_idem (n : nat) (s : string) :
  substring 0 n (substring 0 n s) = substring 0 n s.
Proof. apply substring_all, length_substring_le. Qed.

(** * The parser and the load *)

Section Load.

Lemma fold_add_prerequisite (fs : list string) (c : Course.t)
    (table : PrereqHashTable.t) :
  fold_left Course.add_prerequisite fs (c, table)
  = (Course.mk (Course.number c) (Course.title c)
       (Course.prerequisites c
        ++ List.filter (fun pr => negb (Course.skipped pr)) fs),
     register_all table
       (List.filter (fun pr => negb (Course.skipped pr)) fs)).
Proof.
  revert c table. induction fs as [|f fs IH]; intros c table; simpl.
  - rewrite app_nil_r. destruct c; reflexivity.
  - unfold Course.add_prerequisite at 2.
    destruct (Course.skipped f); simpl; [apply IH|].
    rewrite IH. simpl. rewrite <- app_assoc. reflexivity.
Qed.

(** [init] on a fresh [Course], by the fields of the line. *)
Lemma init_spec (line : string) (table : PrereqHashTable.t) :
  Course.init Course.new line table
  = if negb (Nat.eqb (String.length (key_field line)) 7)
    then (Some MalformedKey, Course.new, table)
    else if Nat.eqb (String.length (title_field line)) 0
    then (Some EmptyTitle, Course.new, table)
    else (None, course_of line, register_all table (prereq_fields line)).
Proof.
  unfold Course.init, key_field, title_field, course_of, prereq_fields.
  cbv zeta.
  destruct (negb (Nat.eqb (String.length (hd EmptyString (Course.fields line))) 7));
    [reflexivity|].
  assert (E : match tl (Course.fields line) with
              | [] => Course.title Course.new
              | f :: _ => f
              end
              = match tl (Course.fields line) with
                | [] => EmptyString
                | f :: _ => f
                end)
    by (destruct (tl (Course.fields line)); reflexivity).
  rewrite E.
  destruct (Nat.eqb _ 0); [reflexivity|].
  rewrite fold_add_prerequisite. reflexivity.
Qed.

Lemma read_lines_ok (lines : list string) :
  forall (this : Driver.t) (num : Z),
    forallb parse_ok lines = true ->
    Driver.read_lines lines this num
    = (None,
       Driver.mk (insert_all (Driver.tree this) (map course_of lines))
         (register_all (Driver.prereqTable this) (registered lines)),
       num + Z.of_nat (length lines)).
Proof.
  induction lines as [|line lines IH]; intros this num Hok.
  - simpl. rewrite Z.add_0_r. destruct this; reflexivity.
  - simpl in Hok. apply andb_prop in Hok. destruct Hok as [Hl Hok].
    cbn [Driver.read_lines]. rewrite init_spec.
    unfold parse_ok in Hl. apply andb_prop in Hl. destruct Hl as [Hk Ht].
    rewrite Hk. apply negb_true_iff in Ht. rewrite Ht. cbn [negb].
    rewrite IH by exact Hok. cbn [Driver.tree Driver.prereqTable].
    replace (num + 1 + Z.of_nat (length lines))
      with (num + Z.of_nat (length (line :: lines)))
      by (cbn [length]; lia).
    unfold registered, register_all, insert_all. cbn [map concat fold_left].
    rewrite fold_left_app. reflexivity.
Qed.

Lemma read_lines_error (lines : list string) :
  forall (this : Driver.t) (num : Z),
    forallb parse_ok lines = false ->
    exists e, fst (fst (Driver.read_lines lines this num)) = Some e
              /\ (e = MalformedKey \/ e = EmptyTitle).
Proof.
  induction lines as [|line lines IH]; intros this num Hok;
    [discriminate|].
  cbn [Driver.read_lines]. rewrite init_spec. simpl in Hok.
  unfold parse_ok in Hok.
  destruct (Nat.eqb (String.length (key_field line)) 7); cbn [negb];
    [|exists MalformedKey; auto].
  destruct (Nat.eqb (String.length (title_field line)) 0);
    [exists EmptyTitle; auto|].
  apply IH. exact Hok.
Qed.

Lemma check_loop_queries (root : BinarySearchTree.t)
    (its : list Prerequisite.t) :
  Driver.check_loop root its
  = first_unresolved root
      (map Prerequisite.getString
         (List.filter (fun p => negb (Prerequisite.empty p)) its)).
Proof.
  unfold first_unresolved.
  induction its as [|p its IH]; simpl; [reflexivity|].
  destruct (negb (Prerequisite.empty p)); simpl; [|exact IH].
  destruct (negb (BinarySearchTree.Exists root (Prerequisite.getString p)));
    [reflexivity|exact IH].
Qed.

(** [checkPrerequisites] asks the store for the keys held by the table,
    in slot order, and reports the first one without a record. *)
Lemma checkPrerequisites_queries (this : Driver.t) :
  wf (Driver.prereqTable this) ->
  Driver.checkPrerequisites this
  = first_unresolved (Driver.tree this) (queries (Driver.prereqTable this)).
Proof.
  intros (_ & Hl & _). unfold Driver.checkPrerequisites.
  unfold PrereqHashTable.getCapacity, PrereqHashTable.getItems.
  rewrite firstn_all2 by lia. apply check_loop_queries.
Qed.

Lemma first_unresolved_Some (root : BinarySearchTree.t) (qs : list string) :
  (exists q, first_unresolved root qs = Some q)
  <-> (exists q, In q qs /\ BinarySearchTree.Exists root q = false).
Proof.
  unfold first_unresolved. split.
  - intros (q & Hq). apply find_some in Hq. exists q.
    cbv beta in Hq. rewrite negb_true_iff in Hq. exact Hq.
  - intros (q & Hq & He).
    destruct (find _ qs) as [q'|] eqn:E; [exists q'; reflexivity|].
    exfalso. pose proof (find_none _ _ E q Hq) as H.
    cbv beta in H. rewrite He in H. discriminate.
Qed.

(** A load whose lines all pass the parser. *)
Lemma loadCourses_parsed (this : Driver.t) (lines : list string) :
  wf (Driver.prereqTable this) ->
  forallb parse_ok lines = true ->
  Driver.loadCourses this lines
  = (match first_unresolved
             (insert_all BinarySearchTree.new (map course_of lines))
             (queries (register_all (Driver.prereqTable this)
                         (registered lines))) with
     | Some q => Driver.Failed (UnresolvedPrerequisite q)
     | None => Driver.Loaded (Z.of_nat (length lines))
     end,
     Driver.mk (insert_all BinarySearchTree.new (map course_of lines))
       (register_all (Driver.prereqTable this) (registered lines))).
Proof.
  intros Hwf Hok. unfold Driver.loadCourses. cbv zeta.
  rewrite read_lines_ok by exact Hok.
  cbn [Driver.tree Driver.prereqTable BinarySearchTree.drain].
  rewrite checkPrerequisites_queries
    by (cbn [Driver.prereqTable]; apply wf_register_all, Hwf).
  cbn [Driver.tree Driver.prereqTable].
  destruct (first_unresolved _ _); reflexivity.
Qed.

(** A load with a line that the parser rejects. *)
Lemma loadCourses_rejected (this : Driver.t) (lines : list string) :
  forallb parse_ok lines = false ->
  fst (Driver.loadCourses this lines) = Driver.Failed MalformedKey
  \/ fst (Driver.loadCourses this lines) = Driver.Failed EmptyTitle.
Proof.
  intros Hok. unfold Driver.loadCourses. cbv zeta.
  destruct (read_lines_error lines
              (Driver.mk (BinarySearchTree.drain (Driver.tree this))
                 (Driver.prereqTable this)) 0 Hok) as (e & He & Hc).
  destruct (Driver.read_lines _ _ _) as [[o d] n]. simpl in He. subst o.
  destruct Hc as [->| ->]; simpl; auto.
Qed.

End Load.

Section Capacity.

Import PrereqHashTable.

Lemma full_insert (t : PrereqHashTable.t) (k : string) :
  wf t -> has_room t = false -> insert t k = t.
Proof.
  intros Hwf Hfull.
  destruct (insert_spec t k Hwf)
    as [(j & Hj & Hb & [(_ & E)|(Hz & _ & _)])|(_ & E)]; try exact E.
  exfalso. assert (H : has_room t = true); [|congruence].
  apply has_room_In. rewrite <- Hz.
  apply slot_num_In; [exact Hwf|apply probe_range, Hwf].
Qed.

Lemma full_register_all (ks : list string) (t : PrereqHashTable.t) :
  wf t -> has_room t = false -> register_all t ks = t.
Proof.
  intros Hwf Hfull. apply register_all_id, List.Forall_forall.
  intros k _. apply full_insert; assumption.
Qed.

Lemma holds_register_all (ks : list string) (t : PrereqHashTable.t)
    (k : string) :
  wf t -> key_format k = true ->
  holds t k = true -> holds (register_all t ks) k = true.
Proof.
  intros Hwf Hk. rewrite !holds_key_num by auto using wf_register_all.
  apply nums_fills;
    auto using wf_register_all, fills_register_all, key_num_nonzero.
Qed.

(** A registered key is held at the end, unless the table is full. *)
Lemma held_or_full (ks : list string) :
  forall (t : PrereqHashTable.t) (k : string),
    reachable t -> key_format k = true -> In k ks ->
    holds (register_all t ks) k = true
    \/ has_room (register_all t ks) = false.
Proof.
  induction ks as [|a ks IH]; intros t k Hr Hk Hin; [contradiction|].
  change (register_all t (a :: ks)) with (register_all (insert t a) ks).
  pose proof (wf_reachable t Hr) as Hwf.
  destruct Hin as [->|Hin];
    [|apply IH; [apply reachable_insert, Hr|exact Hk|exact Hin]].
  destruct (holds (insert t k) k) eqn:Hh.
  - left. apply holds_register_all; [apply wf_insert, Hwf|exact Hk|exact Hh].
  - right. destruct (has_room t) eqn:Hroom.
    + exfalso. assert (H : holds (insert t k) k = true); [|congruence].
      apply holds_insert_iff; auto.
    + rewrite (full_insert t k Hwf Hroom).
      rewrite full_register_all by assumption. exact Hroom.
Qed.

Lemma nums_insert (t : PrereqHashTable.t) (k : string) (v : Z) :
  wf t -> In v (nums (insert t k)) -> In v (nums t) \/ v = key_num k.
Proof.
  intros Hwf.
  destruct (insert_spec t k Hwf)
    as [(j & Hj & Hb & [(_ & ->)|(Hz & _ & ->)])|(_ & ->)]; auto.
  destruct (items_set_num t _ (key_num k) Hwf (probe_range t _ j Hwf) Hz)
    as (l1 & l2 & E1 & E2).
  unfold nums. rewrite E1, E2, !map_app, !in_app_iff. simpl.
  intuition congruence.
Qed.

Lemma nums_register_all (ks : list string) :
  forall (t : PrereqHashTable.t) (v : Z),
    wf t -> In v (nums (register_all t ks)) ->
    In v (nums t) \/ exists k, In k ks /\ v = key_num k.
Proof.
  induction ks as [|a ks IH]; intros t v Hwf Hin; [left; exact Hin|].
  change (register_all t (a :: ks)) with (register_all (insert t a) ks)
    in Hin.
  destruct (IH _ _ (wf_insert t a Hwf) Hin) as [H|(k & Hk & ->)].
  - destruct (nums_insert t a v Hwf H) as [H'| ->]; [left; exact H'|].
    right. exists a. simpl. auto.
  - right. exists k. simpl. auto.
Qed.

Lemma nums_new (c v : Z) : In v (nums (new c)) -> v = 0.
Proof.
  unfold nums, new. cbn [items]. intros H. apply in_map_iff in H.
  destruct H as (p & <- & Hp).
  apply list_elem_of_In, elem_of_replicate in Hp. destruct Hp as [-> _].
  reflexivity.
Qed.

(** Registered into the table of a fresh [Driver], well-formed keys drawn
    from at most as many keys as the table has slots are all held. *)
Lemma all_held (ks ds : list string) (k : string) :
  Forall (fun k => key_format k = true) ks ->
  incl ks ds ->
  Z.of_nat (length ds) <= DEFAULT_PREREQUISITE_TABLE_SIZE ->
  In k ks ->
  holds (register_all (new DEFAULT_PREREQUISITE_TABLE_SIZE) ks) k = true.
Proof.
  intros Hfmt Hsub Hlen Hin.
  rewrite List.Forall_forall in Hfmt. pose proof (Hfmt k Hin) as Hk.
  set (T := register_all (new DEFAULT_PREREQUISITE_TABLE_SIZE) ks).
  assert (Hr : reachable T) by apply reachable_register_all, reachable_new.
  pose proof (wf_reachable T Hr) as Hwf.
  destruct (held_or_full ks _ k reachable_new Hk Hin) as [H|Hfull];
    [exact H|]. fold T in Hfull.
  destruct (holds T k) eqn:Hh; [reflexivity|]. exfalso.
  assert (Hocc : occupied T = items T).
  { unfold occupied. apply forallb_filter_id, forallb_forall.
    intros p Hp. unfold Prerequisite.empty.
    apply negb_true_iff, Z.eqb_neq. intros Hz.
    assert (Hin0 : In 0 (nums T))
      by (rewrite <- Hz; apply in_map; exact Hp).
    apply has_room_In in Hin0. congruence. }
  pose proof (occupied_NoDup T Hr) as Hnd. rewrite Hocc in Hnd.
  fold (nums T) in Hnd.
  assert (Hnk : ~ In (key_num k) (nums T)).
  { intros H. apply (holds_key_num T k Hwf Hk) in H. congruence. }
  assert (Hnd' : List.NoDup (key_num k :: nums T)).
  { constructor; [exact Hnk|]. apply NoDup_ListNoDup. exact Hnd. }
  assert (Hincl : incl (key_num k :: nums T) (map key_num ds)).
  { intros v [<-|Hv]; [apply in_map, Hsub, Hin|].
    destruct (nums_register_all ks _ v wf_new Hv) as [H0|(k' & Hk' & ->)].
    - apply nums_new in H0. subst v. exfalso.
      apply has_room_In in Hv. congruence.
    - apply in_map, Hsub, Hk'. }
  pose proof (NoDup_incl_length Hnd' Hincl) as Hle.
  simpl in Hle. rewrite length_map in Hle.
  unfold nums in Hle. rewrite length_map in Hle.
  destruct Hwf as (_ & Hl & _).
  assert (Hcap : capacity T = DEFAULT_PREREQUISITE_TABLE_SIZE).
  { destruct (fills_register_all ks
                (new DEFAULT_PREREQUISITE_TABLE_SIZE) wf_new) as (E & _).
    exact E. }
  lia.
Qed.

(** The keys held by the table of a fresh [Driver] after well-formed
    keys were registered are among these keys. *)
Lemma queries_registered (ks : list string) (q : string) :
  Forall (fun k => key_format k = true) ks ->
  In q (queries (register_all (new DEFAULT_PREREQUISITE_TABLE_SIZE) ks)) ->
  In q ks.
Proof.
  intros Hfmt Hq. rewrite List.Forall_forall in Hfmt.
  unfold queries in Hq. apply in_map_iff in Hq.
  destruct Hq as (p & <- & Hp). apply occupied_In in Hp.
  destruct Hp as [Hp Hnz].
  assert (Hv : In (Prerequisite.num p)
                 (nums (register_all
                          (new DEFAULT_PREREQUISITE_TABLE_SIZE) ks)))
    by (apply in_map; exact Hp).
  destruct (nums_register_all ks _ _ wf_new Hv) as [H0|(k & Hk & E)].
  - apply nums_new in H0. contradiction.
  - destruct p as [n]. simpl in E. subst n.
    rewrite getString_key_num;
      [exact Hk|apply key_format_nul_free, Hfmt, Hk|].
    rewrite (key_format_length k (Hfmt k Hk)). lia.
Qed.

End Capacity.

(** * Claims on the parser and the load *)

(** C7, as stated, fails: on a line whose key field is too short and whose
    title field is empty, parsing fails with [MalformedKey], not with
    [EmptyTitle]. *)
Lemma init_errors_counterexample :
  title_field "CS10,," = EmptyString
  /\ fst (fst (Course.init Course.new "CS10,,"
                 (PrereqHashTable.new DEFAULT_PREREQUISITE_TABLE_SIZE)))
     = Some MalformedKey
  /\ ~ (fst (fst (Course.init Course.new "CS10,,"
                    (PrereqHashTable.new DEFAULT_PREREQUISITE_TABLE_SIZE)))
        = Some EmptyTitle
        <-> title_field "CS10,," = EmptyString).
Proof.
  split; [reflexivity|]. split; [reflexivity|].
  intros [_ H]. specialize (H eq_refl). vm_compute in H. discriminate.
Qed.

(** C7, amended. Parsing a line into a fresh record fails with
    [MalformedKey] exactly when the key field is not seven characters
    long, and with [EmptyTitle] exactly when the key field is seven
    characters long and the title field is empty (the key is checked
    first). After either failure the record is cleared and the table is
    untouched; without failure the record has the key and the title of the
    line. *)
Theorem init_errors (line : string) (table : PrereqHashTable.t) :
  (fst (fst (Course.init Course.new line table)) = Some MalformedKey
     <-> String.length (key_field line) <> 7%nat)
  /\ (fst (fst (Course.init Course.new line table)) = Some EmptyTitle
      <-> String.length (key_field line) = 7%nat
          /\ title_field line = EmptyString)
  /\ (fst (fst (Course.init Course.new line table)) <> None ->
      snd (fst (Course.init Course.new line table)) = Course.mk "" "" []
      /\ snd (Course.init Course.new line table) = table)
  /\ (fst (fst (Course.init Course.new line table)) = None ->
      snd (fst (Course.init Course.new line table)) = course_of line
      /\ String.length (key_field line) = 7%nat
      /\ title_field line <> EmptyString).
Proof.
  rewrite init_spec.
  destruct (Nat.eqb_spec (String.length (key_field line)) 7) as [Hk|Hk];
    cbn [negb].
  - destruct (Nat.eqb_spec (String.length (title_field line)) 0) as [Ht|Ht];
      cbn [fst snd].
    + assert (Hte : title_field line = EmptyString)
        by (destruct (title_field line); [reflexivity|discriminate]).
      repeat split; try congruence; try discriminate; tauto.
    + assert (Hte : title_field line <> EmptyString)
        by (intros E; rewrite E in Ht; apply Ht; reflexivity).
      repeat split; try congruence; try discriminate; tauto.
  - cbn [fst snd]. repeat split; try congruence; try discriminate; tauto.
Qed.

Lemma init_errors_witness :
  fst (fst (Course.init Course.new "CSCI100,,CSCI200"
              (PrereqHashTable.new DEFAULT_PREREQUISITE_TABLE_SIZE)))
  = Some EmptyTitle
  /\ snd (fst (Course.init Course.new "CSCI100,,CSCI200"
                 (PrereqHashTable.new DEFAULT_PREREQUISITE_TABLE_SIZE)))
     = Course.mk "" "" [].
Proof.
  destruct (init_errors "CSCI100,,CSCI200"
              (PrereqHashTable.new DEFAULT_PREREQUISITE_TABLE_SIZE))
    as (_ & Ht & Hclear & _).
  assert (H : fst (fst (Course.init Course.new "CSCI100,,CSCI200"
                          (PrereqHashTable.new DEFAULT_PREREQUISITE_TABLE_SIZE)))
              = Some EmptyTitle)
    by (apply (proj2 Ht); split; reflexivity).
  split; [exact H|].
  apply Hclear. rewrite H. discriminate.
Defined.

(** C3, as stated, fails: in a first load that registers twenty-eight
    distinct well-formed prerequisite keys, the last one finds the table
    full and is dropped; it matches no stored course, and the load still
    ends with its courses announced as loaded. *)
Lemma load_validation_counterexample :
  In "CSCI999" (registered overfull_catalog)
  /\ key_format "CSCI999" = true
  /\ BinarySearchTree.Exists
       (Driver.tree (snd (Driver.loadCourses Driver.new overfull_catalog)))
       "CSCI999" = false
  /\ fst (Driver.loadCourses Driver.new overfull_catalog) = Driver.Loaded 28
  /\ ~ ((exists q, fst (Driver.loadCourses Driver.new overfull_catalog)
                   = Driver.Failed (UnresolvedPrerequisite q))
        <-> (exists k, In k (registered overfull_catalog)
                       /\ BinarySearchTree.Exists
                            (Driver.tree
                               (snd (Driver.loadCourses Driver.new
                                       overfull_catalog))) k = false)).
Proof.
  assert (Hin : In "CSCI999" (registered overfull_catalog)).
  { apply existsb_eqb_In. vm_compute. reflexivity. }
  assert (Hex : BinarySearchTree.Exists
                  (Driver.tree
                     (snd (Driver.loadCourses Driver.new overfull_catalog)))
                  "CSCI999" = false)
    by (vm_compute; reflexivity).
  assert (Hload : fst (Driver.loadCourses Driver.new overfull_catalog)
                  = Driver.Loaded 28)
    by (vm_compute; reflexivity).
  repeat split; try assumption; try reflexivity.
  intros [_ H]. destruct H as (q & Hq); [exists "CSCI999"; auto|].
  rewrite Hload in Hq. discriminate.
Qed.

(** C3, amended. In a load that starts with the empty table of a fresh
    [Driver] and whose lines are exhausted without a parse failure, the
    load asks the store for every key held by the table, in slot order:
    it fails with the first held key that has no stored record, and
    announces the courses as loaded when every held key has one. So it
    fails with an unresolved prerequisite exactly when some key held by
    the table has no stored record. With well-formed prerequisite keys
    drawn from no more keys than the table has slots, the held keys are
    the registered ones: the load then fails so exactly when some
    registered key matches no stored course key. *)
Theorem load_validation (this : Driver.t) (lines : list string) :
  Driver.prereqTable this
  = PrereqHashTable.new DEFAULT_PREREQUISITE_TABLE_SIZE ->
  forallb parse_ok lines = true ->
  snd (Driver.loadCourses this lines)
  = Driver.mk (insert_all BinarySearchTree.new (map course_of lines))
      (register_all (PrereqHashTable.new DEFAULT_PREREQUISITE_TABLE_SIZE)
         (registered lines))
  /\ fst (Driver.loadCourses this lines)
     = match first_unresolved (Driver.tree (snd (Driver.loadCourses this lines)))
               (queries (Driver.prereqTable
                           (snd (Driver.loadCourses this lines)))) with
       | Some q => Driver.Failed (UnresolvedPrerequisite q)
       | None => Driver.Loaded (Z.of_nat (length lines))
       end
  /\ ((exists q, fst (Driver.loadCourses this lines)
                 = Driver.Failed (UnresolvedPrerequisite q))
      <-> (exists q, In q (queries (Driver.prereqTable
                                     (snd (Driver.loadCourses this lines))))
                     /\ BinarySearchTree.Exists
                          (Driver.tree (snd (Driver.loadCourses this lines)))
                          q = false))
  /\ (Forall (fun k => key_format k = true) (registered lines) ->
      (exists ds, incl (registered lines) ds
                  /\ Z.of_nat (length ds) <= DEFAULT_PREREQUISITE_TABLE_SIZE) ->
      ((exists q, fst (Driver.loadCourses this lines)
                  = Driver.Failed (UnresolvedPrerequisite q))
       <-> (exists k, In k (registered lines)
                      /\ BinarySearchTree.Exists
                           (Driver.tree (snd (Driver.loadCourses this lines)))
                           k = false))).
Proof.
  intros Hnew Hok.
  assert (Hwf : wf (Driver.prereqTable this)) by (rewrite Hnew; apply wf_new).
  rewrite (loadCourses_parsed this lines Hwf Hok). rewrite Hnew.
  cbn [fst snd Driver.tree Driver.prereqTable].
  set (store := insert_all BinarySearchTree.new (map course_of lines)).
  set (table := register_all
                  (PrereqHashTable.new DEFAULT_PREREQUISITE_TABLE_SIZE)
                  (registered lines)).
  assert (Hiff : (exists q,
                    match first_unresolved store (queries table) with
                    | Some q0 => Driver.Failed (UnresolvedPrerequisite q0)
                    | None => Driver.Loaded (Z.of_nat (length lines))
                    end = Driver.Failed (UnresolvedPrerequisite q))
                 <-> (exists q, In q (queries table)
                                /\ BinarySearchTree.Exists store q = false)).
  { rewrite <- first_unresolved_Some.
    destruct (first_unresolved store (queries table)) as [q0|].
    - split; intros _; exists q0; reflexivity.
    - split; intros (q & Hq); discriminate. }
  split; [reflexivity|]. split; [reflexivity|]. split; [exact Hiff|].
  intros Hfmt (ds & Hsub & Hlen). rewrite Hiff. subst table.
  split; intros (q & Hq & He); exists q; (split; [|exact He]).
  - apply (queries_registered _ _ Hfmt Hq).
  - apply holds_In. apply (all_held _ ds); assumption.
Qed.

Lemma load_validation_witness :
  Driver.prereqTable Driver.new
  = PrereqHashTable.new DEFAULT_PREREQUISITE_TABLE_SIZE
  /\ forallb parse_ok valid_catalog = true
  /\ fst (Driver.loadCourses Driver.new valid_catalog) = Driver.Loaded 3
  /\ fst (Driver.loadCourses Driver.new
            (valid_catalog ++ ["MATH201,Discrete Mathematics,MATH101"]))
     = Driver.Failed (UnresolvedPrerequisite "MATH101").
Proof.
  split; [reflexivity|]. split; [reflexivity|]. split.
  - rewrite (proj1 (proj2 (load_validation Driver.new valid_catalog
                             eq_refl eq_refl))).
    reflexivity.
  - rewrite (proj1 (proj2 (load_validation Driver.new
                             (valid_catalog
                              ++ ["MATH201,Discrete Mathematics,MATH101"])
                             eq_refl eq_refl))).
    reflexivity.
Defined.

(** C5, on the code: the table is built once, by [Driver()], and
    [loadCourses] never empties it. After a first load the key it
    registered is still held when the next load begins; the file changed
    in between to a catalog without any prerequisite fails to load on that
    key, though a fresh [Driver] loads it. *)
Theorem table_kept_across_loads :
  fst (Driver.loadCourses Driver.new catalog_v1) = Driver.Loaded 2
  /\ queries (Driver.prereqTable
               (snd (Driver.loadCourses Driver.new catalog_v1)))
     = ["CSCI100"]
  /\ registered catalog_v2 = []
  /\ fst (Driver.loadCourses
            (snd (Driver.loadCourses Driver.new catalog_v1)) catalog_v2)
     = Driver.Failed (UnresolvedPrerequisite "CSCI100")
  /\ fst (Driver.loadCourses Driver.new catalog_v2) = Driver.Loaded 1.
Proof. repeat split; vm_compute; reflexivity. Qed.

(** C8. Loading a valid catalog a second time, right after the load that
    accepted it, accepts it again and leaves the same store and the same
    table: the listing printed after the second load is the listing
    printed after the first. *)
Theorem reload_idempotent (this this1 : Driver.t) (lines : list string)
    (n : Z) :
  reachable (Driver.prereqTable this) ->
  Driver.loadCourses this lines = (Driver.Loaded n, this1) ->
  Driver.loadCourses this1 lines = (Driver.Loaded n, this1)
  /\ Driver.printCourses (snd (Driver.loadCourses this1 lines))
     = Driver.printCourses this1.
Proof.
  intros Hr Hload. pose proof (wf_reachable _ Hr) as Hwf.
  destruct (forallb parse_ok lines) eqn:Hok.
  - rewrite (loadCourses_parsed this lines Hwf Hok) in Hload.
    injection Hload as Hout Hst.
    assert (Hwf1 : wf (Driver.prereqTable this1))
      by (rewrite <- Hst; apply wf_register_all, Hwf).
    assert (Hagain : Driver.loadCourses this1 lines
                     = (Driver.Loaded n, this1)).
    { rewrite (loadCourses_parsed this1 lines Hwf1 Hok).
      rewrite <- Hst at 1 2. cbn [Driver.prereqTable].
      rewrite register_all_twice by exact Hwf.
      rewrite Hout, Hst. reflexivity. }
    rewrite Hagain. split; reflexivity.
  - destruct (loadCourses_rejected this lines Hok) as [H|H];
      rewrite Hload in H; discriminate.
Qed.

Lemma reload_idempotent_witness :
  reachable (Driver.prereqTable Driver.new)
  /\ Driver.loadCourses Driver.new valid_catalog
     = (Driver.Loaded 3, snd (Driver.loadCourses Driver.new valid_catalog))
  /\ Driver.loadCourses (snd (Driver.loadCourses Driver.new valid_catalog))
       valid_catalog
     = (Driver.Loaded 3, snd (Driver.loadCourses Driver.new valid_catalog)).
Proof.
  split; [apply reachable_new|]. split; [reflexivity|].
  apply (reload_idempotent Driver.new
           (snd (Driver.loadCourses Driver.new valid_catalog))
           valid_catalog 3 reachable_new eq_refl).
Defined.

(** * More on the ordered course store *)

Section StoreMore.

Import BinarySearchTree.

Lemma finds_addNode_other (node : Node) (x : Course.t) (k : string) :
  Course.number x <> k -> finds (addNode node x) k = finds node k.
Proof.
  intros Hne. induction node as [|c l IHl r IHr].
  - simpl. apply String.eqb_neq in Hne. rewrite Hne.
    destruct (String.ltb _ _); reflexivity.
  - rewrite addNode_mkNode.
    destruct (String.ltb (Course.number x) (Course.number c)); simpl;
      destruct (String.eqb (Course.number c) k); try reflexivity;
      destruct (String.ltb k (Course.number c)); auto.
Qed.

Lemma finds_addNode_mono (node : Node) (x : Course.t) (k : string) :
  finds node k = true -> finds (addNode node x) k = true.
Proof.
  intros H. destruct (String.eqb_spec (Course.number x) k) as [<-|Hne].
  - apply finds_addNode.
  - rewrite finds_addNode_other by exact Hne. exact H.
Qed.

Lemma Search_not_found (node : Node) (k : string) :
  finds node k = false -> Search node k = Course.new.
Proof.
  induction node as [|c l IHl r IHr]; simpl; [reflexivity|].
  destruct (String.eqb (Course.number c) k); [discriminate|].
  destruct (String.ltb k (Course.number c)); auto.
Qed.

Lemma Search_found (node : Node) (k : string) :
  finds node k = true ->
  Course.number (Search node k) = k /\ In (Search node k) (inOrder node).
Proof.
  induction node as [|c l IHl r IHr]; simpl; [discriminate|].
  destruct (String.eqb_spec (Course.number c) k) as [E|E].
  - intros _. split; [exact E|]. apply in_or_app. right. left. reflexivity.
  - destruct (String.ltb k (Course.number c)); intros H.
    + destruct (IHl H) as [H1 H2]. split; [exact H1|].
      apply in_or_app. left. exact H2.
    + destruct (IHr H) as [H1 H2]. split; [exact H1|].
      apply in_or_app. right. right. exact H2.
Qed.

Lemma Search_addNode (node : Node) (x : Course.t) (k : string) :
  Search (addNode node x) k
  = if finds node k then Search node k
    else if String.eqb (Course.number x) k then x
    else Course.new.
Proof.
  destruct (finds node k) eqn:Hf.
  - destruct (String.eqb_spec (Course.number x) k) as [<-|Hne].
    + apply Search_addNode_shadowed. exact Hf.
    + apply Search_addNode_other. exact Hne.
  - destruct (String.eqb_spec (Course.number x) k) as [<-|Hne].
    + apply Search_addNode_fresh. exact Hf.
    + rewrite Search_addNode_other by exact Hne.
      apply Search_not_found. exact Hf.
Qed.

Lemma ordered_addNode (node : Node) (x : Course.t) :
  ordered node -> ordered (addNode node x).
Proof.
  induction node as [|c l IHl r IHr]; intros Hb.
  - simpl. repeat split; constructor.
  - rewrite addNode_mkNode. destruct Hb as (Hl & Hr & Hbl & Hbr).
    destruct (String.ltb _ _) eqn:E; cbn [ordered].
    + split; [|split; [assumption|split; [auto|assumption]]].
      eapply Permutation_Forall; [symmetry; apply inOrder_addNode|].
      constructor; assumption.
    + split; [assumption|split; [|split; [assumption|auto]]].
      eapply Permutation_Forall; [symmetry; apply inOrder_addNode|].
      constructor; assumption.
Qed.

Lemma ordered_insert_all (cs : list Course.t) (root : Node) :
  ordered root -> ordered (insert_all root cs).
Proof.
  unfold insert_all. revert root.
  induction cs as [|x cs IH]; intros root Hb; simpl; [exact Hb|].
  apply IH. rewrite Insert_addNode. apply ordered_addNode, Hb.
Qed.

Lemma place_app_lt (c x : Course.t) (l r : list Course.t) :
  String.ltb (Course.number c) (Course.number x) = true ->
  place c (l ++ x :: r) = place c l ++ x :: r.
Proof.
  intros Hlt. induction l as [|y l IH]; simpl.
  - rewrite Hlt. reflexivity.
  - destruct (String.ltb (Course.number c) (Course.number y));
      [reflexivity|].
    rewrite IH. reflexivity.
Qed.

Lemma place_app_ge (c : Course.t) (l r : list Course.t) :
  Forall (fun y => String.ltb (Course.number c) (Course.number y) = false) l ->
  place c (l ++ r) = l ++ place c r.
Proof.
  induction 1 as [|y l Hy _ IH]; simpl; [reflexivity|].
  rewrite Hy, IH. reflexivity.
Qed.

Lemma inOrder_addNode_place (node : Node) (x : Course.t) :
  ordered node -> inOrder (addNode node x) = place x (inOrder node).
Proof.
  induction node as [|c l IHl r IHr]; intros Hb; [reflexivity|].
  rewrite addNode_mkNode. destruct Hb as (Hl & Hr & Hbl & Hbr).
  destruct (String.ltb (Course.number x) (Course.number c)) eqn:E;
    cbn [inOrder].
  - rewrite IHl by exact Hbl. symmetry. apply place_app_lt. exact E.
  - rewrite IHr by exact Hbr. rewrite place_app_ge.
    + simpl. rewrite E. reflexivity.
    + rewrite List.Forall_forall in Hl |- *. intros y Hy.
      destruct (String.ltb (Course.number x) (Course.number y)) eqn:E2;
        [|reflexivity].
      pose proof (str_lt_trans _ _ _ E2 (Hl y Hy)) as H.
      unfold str_lt in H. congruence.
Qed.

Lemma inOrder_insert_all_place (cs : list Course.t) (root : Node) :
  ordered root ->
  inOrder (insert_all root cs)
  = fold_left (fun l c => place c l) cs (inOrder root).
Proof.
  unfold insert_all. revert root.
  induction cs as [|c cs IH]; intros root Hb; simpl; [reflexivity|].
  rewrite IH by (rewrite Insert_addNode; apply ordered_addNode, Hb).
  rewrite Insert_addNode, inOrder_addNode_place by exact Hb. reflexivity.
Qed.

Lemma ordered_sorted (node : Node) :
  ordered node -> StronglySorted key_le (inOrder node).
Proof.
  induction node as [|c l IHl r IHr]; simpl; [constructor|].
  intros (Hl & Hr & Hbl & Hbr).
  rewrite List.Forall_forall in Hl, Hr.
  apply StronglySorted_app. split; [|split; [auto|]].
  - intros x1 x2 H1 H2. apply list_elem_of_In in H1.
    apply list_elem_of_In in H2. unfold key_le.
    destruct H2 as [<-|H2].
    + destruct (String.ltb (Course.number c) (Course.number x1)) eqn:E;
        [|reflexivity].
      exfalso. exact (str_lt_asym _ _ (Hl _ H1) E).
    + destruct (String.ltb (Course.number x2) (Course.number x1)) eqn:E;
        [|reflexivity].
      pose proof (str_lt_trans _ _ _ E (Hl _ H1)) as H.
      unfold str_lt in H. rewrite (Hr _ H2) in H. discriminate.
  - constructor; [auto|]. apply List.Forall_forall. intros y Hy.
    unfold key_le. exact (Hr y Hy).
Qed.

Lemma addNode_spine (cs : list Course.t) (x : Course.t) :
  Forall (fun y => key_le y x) cs ->
  addNode (spine cs) x = spine (cs ++ [x]).
Proof.
  induction 1 as [|y cs Hy _ IH]; [reflexivity|].
  cbn [spine app]. rewrite addNode_mkNode. unfold key_le in Hy.
  rewrite Hy, IH. reflexivity.
Qed.

Lemma height_spine (cs : list Course.t) : height (spine cs) = length cs.
Proof.
  induction cs as [|c cs IH]; simpl; [reflexivity|]. rewrite IH. reflexivity.
Qed.

Lemma visited_le_height (node : Node) (k : string) :
  (visited node k <= height node)%nat.
Proof.
  induction node as [|c l IHl r IHr]; simpl; [lia|].
  destruct (String.eqb _ _); [lia|].
  destruct (String.ltb _ _); lia.
Qed.

Lemma Search_insert_all (cs : list Course.t) (root : Node) (k : string) :
  Search (insert_all root cs) k
  = if finds root k then Search root k
    else default Course.new
           (List.find (fun c => String.eqb (Course.number c) k) cs).
Proof.
  unfold insert_all. revert root.
  induction cs as [|c cs IH]; intros root; simpl.
  - destruct (finds root k) eqn:Hf; [reflexivity|].
    apply Search_not_found. exact Hf.
  - rewrite IH, Insert_addNode, Search_addNode.
    destruct (finds root k) eqn:Hf.
    + rewrite (finds_addNode_mono root c k Hf). reflexivity.
    + destruct (String.eqb_spec (Course.number c) k) as [<-|Hne].
      * rewrite finds_addNode. reflexivity.
      * rewrite finds_addNode_other, Hf by exact Hne. reflexivity.
Qed.

Lemma Exists_insert_all (cs : list Course.t) (k : string) :
  Exists (insert_all BinarySearchTree.new cs) k
  = existsb (fun c => String.eqb (Course.number c) k) cs
    && negb (Nat.eqb (String.length k) 0).
Proof.
  unfold Exists. rewrite (Search_insert_all cs BinarySearchTree.new k).
  cbn [finds BinarySearchTree.new].
  induction cs as [|c cs IH]; cbn [List.find existsb]; [reflexivity|].
  destruct (String.eqb (Course.number c) k) eqn:E.
  - apply String.eqb_eq in E. subst k. reflexivity.
  - exact IH.
Qed.

End StoreMore.

(** X1. What [Search] answers on a store built by [Insert]s, whatever the
    records and with repeated keys allowed: on a key that the store found
    before, the answer it gave before; otherwise the first of the inserted
    records with that key, or the empty record when there is none. *)
Theorem Search_first_inserted (root : BinarySearchTree.t)
    (cs : list Course.t) (k : string) :
  BinarySearchTree.Search (insert_all root cs) k
  = if finds root k then BinarySearchTree.Search root k
    else default Course.new
           (List.find (fun c => String.eqb (Course.number c) k) cs).
Proof. apply Search_insert_all. Qed.

(** X2. [Exists] on a store built from the empty one: true exactly for the
    non-empty keys of the inserted records. A record inserted with an
    empty key is stored and listed, and [Exists] still answers [false]
    for it. *)
Theorem Exists_inserted (cs : list Course.t) (k : string) :
  BinarySearchTree.Exists (insert_all BinarySearchTree.new cs) k
  = existsb (fun c => String.eqb (Course.number c) k) cs
    && negb (Nat.eqb (String.length k) 0).
Proof. apply Exists_insert_all. Qed.

(** X3. [Search] on any tree, ordered or not: it returns the empty record,
    or a record of the tree that has the key asked for. *)
Theorem Search_sound (root : BinarySearchTree.t) (k : string) :
  (finds root k = false /\ BinarySearchTree.Search root k = Course.new)
  \/ (finds root k = true
      /\ Course.number (BinarySearchTree.Search root k) = k
      /\ In (BinarySearchTree.Search root k) (BinarySearchTree.inOrder root)).
Proof.
  destruct (finds root k) eqn:Hf.
  - right. split; [reflexivity|]. apply Search_found. exact Hf.
  - left. split; [reflexivity|]. apply Search_not_found. exact Hf.
Qed.

(** X4. The listing of a store built from the empty one, with repeated
    keys allowed: the inserted records sorted by key, records of equal key
    in the order of their insertion. Keys never decrease along the
    listing and no record is lost. *)
Theorem listing_stable_sort (cs : list Course.t) :
  BinarySearchTree.inOrder (insert_all BinarySearchTree.new cs)
  = stable_sort cs
  /\ StronglySorted key_le
       (BinarySearchTree.inOrder (insert_all BinarySearchTree.new cs))
  /\ Permutation (BinarySearchTree.inOrder (insert_all BinarySearchTree.new cs))
       cs.
Proof.
  split; [|split].
  - apply (inOrder_insert_all_place cs nullptr). exact I.
  - apply ordered_sorted, ordered_insert_all. exact I.
  - apply (inOrder_insert_all cs nullptr).
Qed.

(** X5. Courses inserted in an order in which keys never decrease make the
    store a chain of right children: its height is the number of courses,
    and [Search] on a key larger than all of them visits every node. *)
Theorem sorted_input_degenerates (cs : list Course.t) :
  StronglySorted key_le cs ->
  insert_all BinarySearchTree.new cs = spine cs
  /\ height (insert_all BinarySearchTree.new cs) = length cs
  /\ (forall k, Forall (fun c => str_lt (Course.number c) k) cs ->
       visited (insert_all BinarySearchTree.new cs) k = length cs).
Proof.
  intros Hs.
  assert (E : insert_all BinarySearchTree.new cs = spine cs).
  { unfold insert_all. induction cs as [|c cs IH] using rev_ind;
      [reflexivity|].
    rewrite fold_left_app. simpl.
    apply StronglySorted_app in Hs. destruct Hs as (Hle & Hs & _).
    rewrite IH by exact Hs. rewrite Insert_addNode.
    apply addNode_spine, List.Forall_forall. intros y Hy.
    apply Hle; [apply list_elem_of_In, Hy|left]. }
  rewrite E. split; [reflexivity|]. split; [apply height_spine|].
  intros k Hk. clear E Hs. induction Hk as [|c cs Hc _ IH];
    [reflexivity|].
  simpl. apply str_lt_neq in Hc as Hne. apply String.eqb_neq in Hne.
  rewrite Hne.
  destruct (String.ltb k (Course.number c)) eqn:E.
  - exfalso. exact (str_lt_asym _ _ Hc E).
  - rewrite IH. reflexivity.
Qed.

(** * More on the prerequisite table *)

Section TableMore.

Import PrereqHashTable.

Lemma pack_app (s1 s2 : string) :
  Prerequisite.pack (s1 ++ s2)
  = Prerequisite.pack s1
    + 256 ^ Z.of_nat (String.length s1) * Prerequisite.pack s2.
Proof.
  induction s1 as [|c s1 IH]; simpl String.length; cbn [append Prerequisite.pack].
  - simpl. lia.
  - rewrite IH, Nat2Z.inj_succ, Z.pow_succ_r by lia. lia.
Qed.

Lemma nul_free_app (s1 s2 : string) :
  nul_free (s1 ++ s2) = nul_free s1 && nul_free s2.
Proof.
  unfold nul_free. induction s1 as [|c s1 IH]; simpl; [reflexivity|].
  rewrite IH, andb_assoc. reflexivity.
Qed.

Lemma length_append (s1 s2 : string) :
  String.length (s1 ++ s2) = (String.length s1 + String.length s2)%nat.
Proof. induction s1 as [|c s1 IH]; simpl; [reflexivity|]. rewrite IH. reflexivity. Qed.

Lemma pack_zero (s : string) :
  all_chars (fun c => Prerequisite.byte c =? 0) s = true ->
  Prerequisite.pack s = 0.
Proof.
  induction s as [|c s IH]; simpl; [reflexivity|].
  intros H. apply andb_prop in H. destruct H as [Hc Hs].
  apply Z.eqb_eq in Hc. rewrite Hc, (IH Hs). reflexivity.
Qed.

End TableMore.

(** X6. [insert] on a table of the [Driver] never moves, changes or
    removes a key: the capacity and the number of slots stay, every
    occupied slot keeps its number, and either the table is unchanged or
    one empty slot received the number of the string, which no slot held
    before. *)
Theorem insert_adds_at_most_one (t : PrereqHashTable.t) (k : string) :
  reachable t ->
  PrereqHashTable.capacity (PrereqHashTable.insert t k)
  = PrereqHashTable.capacity t
  /\ length (PrereqHashTable.items (PrereqHashTable.insert t k))
     = length (PrereqHashTable.items t)
  /\ (forall i, 0 <= i -> slot_num t i <> 0 ->
        slot_num (PrereqHashTable.insert t k) i = slot_num t i)
  /\ (PrereqHashTable.insert t k = t
      \/ (has_room t = true
          /\ key_num k <> 0
          /\ ~ In (key_num k) (nums t)
          /\ Permutation (occupied (PrereqHashTable.insert t k))
               (Prerequisite.mk (key_num k) :: occupied t))).
Proof.
  intros Hr. pose proof (wf_reachable t Hr) as Hwf.
  pose proof (wf_insert t k Hwf) as Hwf'.
  destruct (fills_insert t k Hwf) as (Hc & Hsame).
  split; [exact Hc|]. split.
  - destruct Hwf as (_ & Hl & _). destruct Hwf' as (_ & Hl' & _). lia.
  - split; [exact Hsame|].
    destruct (insert_spec t k Hwf)
      as [(j & Hj & Hb & [(_ & E)|(Hz & Hv & E)])|(_ & E)]; auto.
    right. split; [|split; [exact Hv|split]].
    + apply has_room_In. rewrite <- Hz.
      apply slot_num_In; [exact Hwf|apply probe_range, Hwf].
    + apply (empty_slot_fresh t (key_num k) j Hwf (chain_ok_reachable t Hr)
               Hv Hj); [|exact Hz].
      intros i Hi. apply (Hb i Hi).
    + rewrite E.
      apply occupied_set_num; auto. apply probe_range, Hwf.
Qed.

(** X7. A string whose first seven bytes are all zero, the empty string
    among them, is never stored: its number is the mark of an empty slot,
    and [insert] returns the table unchanged whether it has room or not. *)
Theorem insert_zero_noop (t : PrereqHashTable.t) (k : string) :
  reachable t ->
  all_chars (fun c => Prerequisite.byte c =? 0) (substring 0 7 k) = true ->
  PrereqHashTable.insert t k = t.
Proof.
  intros Hr Hz. pose proof (wf_reachable t Hr) as Hwf.
  assert (Hv : key_num k = 0) by (rewrite key_num_pack; apply pack_zero, Hz).
  destruct (insert_spec t k Hwf)
    as [(j & Hj & Hb & [(_ & E)|(_ & Hne & _)])|(_ & E)]; auto.
  contradiction.
Qed.

(** X8. In the table of a fresh [Driver], well-formed keys drawn from no
    more keys than the table has slots are registered as a set: after any
    sequence of such [insert]s, in any order and with repetitions, a key
    is held exactly when it was registered, and it has exactly one
    entry. *)
Theorem held_iff_registered (ks ds : list string) (k : string) :
  Forall (fun k => key_format k = true) ks ->
  incl ks ds ->
  Z.of_nat (length ds) <= DEFAULT_PREREQUISITE_TABLE_SIZE ->
  (holds (register_all (PrereqHashTable.new DEFAULT_PREREQUISITE_TABLE_SIZE) ks) k
   = true <-> In k ks)
  /\ (In k ks ->
      entries (register_all (PrereqHashTable.new DEFAULT_PREREQUISITE_TABLE_SIZE) ks) k
      = 1%nat).
Proof.
  intros Hfmt Hsub Hlen.
  assert (Hiff : holds (register_all
                          (PrereqHashTable.new DEFAULT_PREREQUISITE_TABLE_SIZE)
                          ks) k = true <-> In k ks).
  { split.
    - intros H. apply holds_In in H.
      apply (queries_registered ks k Hfmt H).
    - intros H. apply (all_held ks ds k Hfmt Hsub Hlen H). }
  split; [exact Hiff|]. intros Hin.
  pose proof (proj2 Hiff Hin) as Hh. apply entries_holds in Hh.
  assert (Hle : (entries
                   (register_all
                      (PrereqHashTable.new DEFAULT_PREREQUISITE_TABLE_SIZE) ks)
                   k <= 1)%nat).
  { apply entries_le_1.
    - apply reachable_register_all, reachable_new.
    - rewrite List.Forall_forall in Hfmt. apply Hfmt, Hin. }
  lia.
Qed.

(** X9. [load] writes over the first bytes of the union and leaves the
    others: on a [Prerequisite] that holds a key and was not cleared,
    loading a shorter string gives that string followed by the tail of
    the old key; after [clear] it gives the string alone. *)
Theorem load_keeps_tail (a1 a2 b : string) :
  String.length a1 = String.length b ->
  (String.length (a1 ++ a2) <= 7)%nat ->
  nul_free (a1 ++ a2) = true ->
  nul_free b = true ->
  Prerequisite.getString
    (Prerequisite.load (Prerequisite.load Prerequisite.new (a1 ++ a2)) b)
  = (b ++ a2)%string
  /\ Prerequisite.getString
       (Prerequisite.load
          (Prerequisite.clear (Prerequisite.load Prerequisite.new (a1 ++ a2)))
          b)
     = b.
Proof.
  intros Hlen Hl Hn Hb.
  rewrite nul_free_app in Hn. apply andb_prop in Hn. destruct Hn as [Hn1 Hn2].
  rewrite length_append in Hl.
  assert (Hlb : (String.length b <= 7)%nat) by lia.
  split.
  - rewrite load_key_num. unfold Prerequisite.load, Prerequisite.getString.
    cbn [Prerequisite.num].
    rewrite (Nat.min_r 7 (String.length b)) by exact Hlb.
    rewrite (substring_all _ b) by lia.
    rewrite key_num_pack, substring_all by (rewrite length_append; lia).
    rewrite pack_app, Hlen.
    pose proof (pack_range a1) as Hr1. rewrite Hlen in Hr1.
    assert (Hp : 0 < 256 ^ Z.of_nat (String.length b))
      by (apply Z.pow_pos_nonneg; lia).
    replace (Prerequisite.pack a1
             + 256 ^ Z.of_nat (String.length b) * Prerequisite.pack a2)
      with (Prerequisite.pack a1
            + Prerequisite.pack a2 * 256 ^ Z.of_nat (String.length b))
      by lia.
    rewrite Z.div_add, (Z.div_small (Prerequisite.pack a1)) by lia.
    replace ((0 + Prerequisite.pack a2) * 256 ^ Z.of_nat (String.length b)
             + Prerequisite.pack b)
      with (Prerequisite.pack (b ++ a2)) by (rewrite pack_app; lia).
    apply c_str_pack.
    + rewrite nul_free_app, Hb, Hn2. reflexivity.
    + rewrite length_append. lia.
  - unfold Prerequisite.clear.
    change (Prerequisite.mk 0) with Prerequisite.new.
    rewrite load_key_num. apply getString_key_num; assumption.
Qed.

(** * More on the parser and the load *)

Section ParserMore.

Lemma fields_nonempty (line : string) : Course.fields line <> [].
Proof.
  destruct line as [|c rest]; simpl; [discriminate|].
  destruct (Ascii.eqb c Course.delim); [discriminate|].
  destruct (Course.fields rest); discriminate.
Qed.

Lemma concat_cons (sep x : string) (fs : list string) :
  fs <> [] ->
  String.concat sep (x :: fs) = (x ++ sep ++ String.concat sep fs)%string.
Proof. destruct fs; [contradiction|reflexivity]. Qed.

Lemma fields_app (a b : string) :
  Course.fields (a ++ String Course.delim b)
  = Course.fields a ++ Course.fields b.
Proof.
  induction a as [|c a IH]; cbn [append Course.fields].
  - rewrite Ascii.eqb_refl. reflexivity.
  - destruct (Ascii.eqb c Course.delim); [rewrite IH; reflexivity|].
    rewrite IH. pose proof (fields_nonempty a) as Hne.
    destruct (Course.fields a) as [|f fs]; [contradiction|]. reflexivity.
Qed.

Lemma append_assoc (a b c : string) :
  ((a ++ b) ++ c)%string = (a ++ (b ++ c))%string.
Proof. induction a as [|x a IH]; simpl; [reflexivity|]. rewrite IH. reflexivity. Qed.

Lemma filter_skipped_app (fs gs : list string) :
  Forall (fun g => Course.skipped g = true) gs ->
  List.filter (fun pr => negb (Course.skipped pr)) (fs ++ gs)
  = List.filter (fun pr => negb (Course.skipped pr)) fs.
Proof.
  intros H. rewrite List.filter_app.
  assert (E : List.filter (fun pr => negb (Course.skipped pr)) gs = []).
  { induction H as [|g gs Hg _ IH]; simpl; [reflexivity|].
    rewrite Hg. exact IH. }
  rewrite E. apply app_nil_r.
Qed.

(** The parts of a line after one more field [g] that the parser skips,
    when the line has a title field already or [g] is empty. *)
Lemma course_of_skipped_field (line g : string) :
  Course.skipped g = true ->
  Course.fields g = [g] ->
  (2 <= length (Course.fields line))%nat \/ g = EmptyString ->
  key_field (line ++ String Course.delim g) = key_field line
  /\ title_field (line ++ String Course.delim g) = title_field line
  /\ prereq_fields (line ++ String Course.delim g) = prereq_fields line.
Proof.
  intros Hs Hg Hlen.
  unfold key_field, title_field, prereq_fields. rewrite fields_app, Hg.
  pose proof (fields_nonempty line) as Hne.
  destruct (Course.fields line) as [|k [|t fs]]; [contradiction| |].
  - destruct Hlen as [Hlen| ->]; [simpl in Hlen; lia|]. simpl. auto.
  - simpl. repeat split.
    apply filter_skipped_app. constructor; [exact Hs|constructor].
Qed.

Lemma init_same_fields (line line' : string) (table : PrereqHashTable.t) :
  key_field line' = key_field line ->
  title_field line' = title_field line ->
  prereq_fields line' = prereq_fields line ->
  Course.init Course.new line' table = Course.init Course.new line table.
Proof.
  intros Hk Ht Hp. rewrite !init_spec. unfold course_of.
  rewrite Hk, Ht, Hp. reflexivity.
Qed.

Lemma read_lines_abort (good : list string) (bad : string)
    (rest : list string) :
  forall (this : Driver.t) (num : Z),
    forallb parse_ok good = true ->
    parse_ok bad = false ->
    Driver.read_lines (good ++ bad :: rest) this num
    = (Some (if Nat.eqb (String.length (key_field bad)) 7
             then EmptyTitle else MalformedKey),
       Driver.mk (insert_all (Driver.tree this) (map course_of good))
         (register_all (Driver.prereqTable this) (registered good)),
       num + Z.of_nat (length good)).
Proof.
  induction good as [|line good IH]; intros this num Hok Hbad.
  - cbn [app Driver.read_lines]. rewrite init_spec.
    unfold parse_ok in Hbad.
    destruct (Nat.eqb (String.length (key_field bad)) 7); cbn [negb].
    + simpl in Hbad. apply negb_false_iff in Hbad. rewrite Hbad.
      rewrite Z.add_0_r. destruct this; reflexivity.
    + rewrite Z.add_0_r. destruct this; reflexivity.
  - simpl in Hok. apply andb_prop in Hok. destruct Hok as [Hl Hok].
    cbn [app Driver.read_lines]. rewrite init_spec.
    unfold parse_ok in Hl. apply andb_prop in Hl. destruct Hl as [Hk Ht].
    rewrite Hk. apply negb_true_iff in Ht. rewrite Ht. cbn [negb].
    rewrite IH by assumption. cbn [Driver.tree Driver.prereqTable].
    replace (num + 1 + Z.of_nat (length good))
      with (num + Z.of_nat (length (line :: good)))
      by (cbn [length]; lia).
    unfold registered, register_all, insert_all. cbn [map concat fold_left].
    rewrite fold_left_app. reflexivity.
Qed.

(** The lines before the first one that the parser rejects. *)
Lemma first_bad_line (lines : list string) :
  forallb parse_ok lines = false ->
  exists good bad rest,
    lines = good ++ bad :: rest
    /\ forallb parse_ok good = true /\ parse_ok bad = false.
Proof.
  induction lines as [|line lines IH]; [discriminate|]. simpl.
  destruct (parse_ok line) eqn:E; simpl.
  - intros H. destruct (IH H) as (good & bad & rest & -> & Hg & Hb).
    exists (line :: good), bad, rest. simpl. rewrite E. auto.
  - intros _. exists [], line, lines. auto.
Qed.

Lemma read_lines_tree (lines : list string) :
  forall (this this' : Driver.t) (num num' : Z),
    Driver.tree this = Driver.tree this' ->
    fst (fst (Driver.read_lines lines this num))
    = fst (fst (Driver.read_lines lines this' num'))
    /\ Driver.tree (snd (fst (Driver.read_lines lines this num)))
       = Driver.tree (snd (fst (Driver.read_lines lines this' num'))).
Proof.
  intros this this' num num' Ht.
  destruct (forallb parse_ok lines) eqn:Hok.
  - rewrite !read_lines_ok by exact Hok. cbn [fst snd Driver.tree].
    rewrite Ht. auto.
  - destruct (first_bad_line lines Hok) as (good & bad & rest & -> & Hg & Hb).
    rewrite !read_lines_abort by assumption. cbn [fst snd Driver.tree].
    rewrite Ht. auto.
Qed.

Lemma load_aborts_aux (this : Driver.t) (good rest : list string)
    (bad : string) :
  forallb parse_ok good = true ->
  parse_ok bad = false ->
  Driver.loadCourses this (good ++ bad :: rest)
  = (Driver.Failed (if Nat.eqb (String.length (key_field bad)) 7
                    then EmptyTitle else MalformedKey),
     Driver.mk (insert_all BinarySearchTree.new (map course_of good))
       (register_all (Driver.prereqTable this) (registered good))).
Proof.
  intros Hg Hb. unfold Driver.loadCourses. cbv zeta.
  rewrite read_lines_abort by assumption. reflexivity.
Qed.

Lemma loadCourses_Loaded (this this1 : Driver.t) (lines : list string)
    (n : Z) :
  Driver.loadCourses this lines = (Driver.Loaded n, this1) ->
  forallb parse_ok lines = true
  /\ n = Z.of_nat (length lines)
  /\ this1 = Driver.mk (insert_all BinarySearchTree.new (map course_of lines))
               (register_all (Driver.prereqTable this) (registered lines)).
Proof.
  intros H. destruct (forallb parse_ok lines) eqn:Hok.
  - unfold Driver.loadCourses in H. cbv zeta in H.
    rewrite read_lines_ok in H by exact Hok.
    cbn [Driver.tree Driver.prereqTable BinarySearchTree.drain] in H.
    destruct (Driver.checkPrerequisites _); [discriminate|].
    injection H as <- <-. auto.
  - destruct (loadCourses_rejected this lines Hok) as [E|E];
      rewrite H in E; discriminate.
Qed.

Lemma queries_registered_nul_free (ks : list string) (q : string) :
  Forall (fun k => nul_free k = true /\ (String.length k <= 7)%nat) ks ->
  In q (queries (register_all
                   (PrereqHashTable.new DEFAULT_PREREQUISITE_TABLE_SIZE) ks)) ->
  In q ks.
Proof.
  intros Hfmt Hq. rewrite List.Forall_forall in Hfmt.
  unfold queries in Hq. apply in_map_iff in Hq.
  destruct Hq as (p & <- & Hp). apply occupied_In in Hp.
  destruct Hp as [Hp Hnz].
  assert (Hv : In (Prerequisite.num p)
                 (nums (register_all
                          (PrereqHashTable.new DEFAULT_PREREQUISITE_TABLE_SIZE)
                          ks)))
    by (apply in_map; exact Hp).
  destruct (nums_register_all ks _ _ wf_new Hv) as [H0|(k & Hk & E)].
  - apply nums_new in H0. contradiction.
  - destruct p as [n]. simpl in E. subst n.
    destruct (Hfmt k Hk) as [Hn Hl].
    rewrite getString_key_num; assumption.
Qed.

End ParserMore.

(** X10. The fields that the parser reads from a line are the pieces of
    the line between its delimiters: joined with the delimiter they give
    the line back, and no field contains a delimiter. *)
Theorem fields_join (line : string) :
  String.concat (String Course.delim EmptyString) (Course.fields line) = line
  /\ Forall (fun f => all_chars (fun c => negb (Ascii.eqb c Course.delim)) f
                     = true)
       (Course.fields line).
Proof.
  induction line as [|c rest [IHc IHf]]; [split; [reflexivity|]|].
  - repeat constructor.
  - cbn [Course.fields]. pose proof (fields_nonempty rest) as Hne.
    destruct (Ascii.eqb c Course.delim) eqn:E.
    + apply Ascii.eqb_eq in E. subst c. split.
      * rewrite concat_cons by exact Hne. rewrite IHc. reflexivity.
      * constructor; [reflexivity|exact IHf].
    + destruct (Course.fields rest) as [|f fs]; [contradiction|]. split.
      * destruct fs as [|g fs].
        -- simpl in IHc |- *. rewrite IHc. reflexivity.
        -- rewrite concat_cons in IHc |- * by discriminate.
           rewrite <- IHc at 1. reflexivity.
      * inversion IHf as [|? ? Hf Hfs]; subst. constructor; [|exact Hfs].
        cbn [all_chars]. rewrite E, Hf. reflexivity.
Qed.

(** X11. A delimiter at the end of a line changes nothing of what the
    parser does, and on a line that has a title field neither does a
    delimiter followed by a lone carriage return: the same error or the
    same record, and the same registrations. *)
Theorem trailing_delimiter_ignored (line : string)
    (table : PrereqHashTable.t) :
  Course.init Course.new (line ++ ",") table
  = Course.init Course.new line table
  /\ ((2 <= length (Course.fields line))%nat ->
      Course.init Course.new (line ++ String "," (String "013" "")) table
      = Course.init Course.new line table).
Proof.
  split.
  - destruct (course_of_skipped_field line EmptyString eq_refl eq_refl
                (or_intror eq_refl)) as (Hk & Ht & Hp).
    apply init_same_fields; assumption.
  - intros Hlen.
    destruct (course_of_skipped_field line (String "013" "") eq_refl eq_refl
                (or_introl Hlen)) as (Hk & Ht & Hp).
    apply init_same_fields; assumption.
Qed.

(** X12. When parsing a line into a fresh record succeeds, the record
    lists the fields after the title in their order, without the empty
    ones and the lone carriage returns, and exactly these were registered
    in the table, in that order (prerequisite fields are not checked for
    the key format). *)
Theorem init_registers_prerequisites (line : string)
    (table : PrereqHashTable.t) :
  fst (fst (Course.init Course.new line table)) = None ->
  Course.prerequisites (snd (fst (Course.init Course.new line table)))
  = List.filter (fun pr => negb (Course.skipped pr))
      (tl (tl (Course.fields line)))
  /\ snd (Course.init Course.new line table)
     = register_all table
         (Course.prerequisites (snd (fst (Course.init Course.new line table))))
  /\ Forall (fun pr => pr <> EmptyString /\ pr <> String "013" "")
       (Course.prerequisites (snd (fst (Course.init Course.new line table)))).
Proof.
  rewrite init_spec.
  destruct (negb (Nat.eqb (String.length (key_field line)) 7));
    [discriminate|].
  destruct (Nat.eqb (String.length (title_field line)) 0); [discriminate|].
  intros _. cbn [fst snd course_of Course.prerequisites].
  split; [reflexivity|]. split; [reflexivity|].
  apply List.Forall_forall. intros pr Hpr. unfold prereq_fields in Hpr.
  apply filter_In in Hpr. destruct Hpr as [_ Hs].
  apply negb_true_iff in Hs. split; intros ->; discriminate.
Qed.

(** X13. A load stops at the first line that the parser rejects, with the
    error of that line: the store holds the records of the lines before
    it, the table their registrations on top of what it held, the lines
    after it are not read and the prerequisites are not validated. *)
Theorem load_aborts_at_first_bad_line (this : Driver.t)
    (good rest : list string) (bad : string) :
  forallb parse_ok good = true ->
  parse_ok bad = false ->
  Driver.loadCourses this (good ++ bad :: rest)
  = (Driver.Failed (if Nat.eqb (String.length (key_field bad)) 7
                    then EmptyTitle else MalformedKey),
     Driver.mk (insert_all BinarySearchTree.new (map course_of good))
       (register_all (Driver.prereqTable this) (registered good))).
Proof. apply load_aborts_aux. Qed.

(** X14. After a load that announced [n] courses, [n] is the number of
    lines, the listing is the records of the lines sorted by key (equal
    keys in file order), every record has a key of seven characters and a
    title, and [Exists] is true exactly for the key fields of the lines;
    [Search] returns the record of the first line with that key. *)
Theorem loaded_store (this this1 : Driver.t) (lines : list string) (n : Z) :
  Driver.loadCourses this lines = (Driver.Loaded n, this1) ->
  n = Z.of_nat (length lines)
  /\ BinarySearchTree.inOrder (Driver.tree this1)
     = stable_sort (map course_of lines)
  /\ Forall (fun c => String.length (Course.number c) = 7%nat
                     /\ Course.title c <> EmptyString)
       (BinarySearchTree.inOrder (Driver.tree this1))
  /\ (forall k, BinarySearchTree.Exists (Driver.tree this1) k
               = existsb (fun line => String.eqb (key_field line) k) lines)
  /\ (forall k, BinarySearchTree.Search (Driver.tree this1) k
               = default Course.new
                   (option_map course_of
                      (List.find (fun line => String.eqb (key_field line) k)
                         lines))).
Proof.
  intros H. destruct (loadCourses_Loaded _ _ _ _ H) as (Hok & Hn & ->).
  cbn [Driver.tree].
  assert (Hs : BinarySearchTree.inOrder
                 (insert_all BinarySearchTree.new (map course_of lines))
               = stable_sort (map course_of lines))
    by (apply (inOrder_insert_all_place _ nullptr); exact I).
  pose proof (inOrder_insert_all (map course_of lines) nullptr) as Hp.
  simpl in Hp.
  split; [exact Hn|]. split; [exact Hs|]. split; [|split].
  - apply List.Forall_forall. intros c Hc.
    apply (Permutation_in _ Hp), in_map_iff in Hc.
    destruct Hc as (line & <- & Hl).
    rewrite forallb_forall in Hok. specialize (Hok line Hl).
    unfold parse_ok in Hok. apply andb_prop in Hok. destruct Hok as [Hk Ht].
    apply Nat.eqb_eq in Hk. apply negb_true_iff, Nat.eqb_neq in Ht.
    split; [exact Hk|]. simpl. intros E. rewrite E in Ht. apply Ht.
    reflexivity.
  - intros k. rewrite Exists_insert_all.
    assert (Hm : existsb (fun c => String.eqb (Course.number c) k)
                   (map course_of lines)
                 = existsb (fun line => String.eqb (key_field line) k) lines).
    { clear. induction lines as [|line lines IH]; [reflexivity|].
      simpl. rewrite IH. reflexivity. }
    rewrite Hm.
    destruct (existsb (fun line => String.eqb (key_field line) k) lines)
      eqn:E; [|reflexivity].
    apply existsb_exists in E. destruct E as (line & Hl & E).
    apply String.eqb_eq in E. subst k.
    rewrite forallb_forall in Hok. specialize (Hok line Hl).
    unfold parse_ok in Hok. apply andb_prop in Hok. destruct Hok as [Hk _].
    apply Nat.eqb_eq in Hk. rewrite Hk. reflexivity.
  - intros k. rewrite Search_insert_all. cbn [finds BinarySearchTree.new]. clear.
    induction lines as [|line lines IH]; [reflexivity|].
    cbn [map List.find Course.number course_of].
    destruct (String.eqb (key_field line) k); [reflexivity|exact IH].
Qed.

(** X15. A load rebuilds the store from the lines alone: whether it
    succeeds or fails, the store it leaves and the parse error it may
    raise are those of a fresh [Driver] on the same lines, whatever the
    store and the table held before. *)
Theorem load_replaces_store (this : Driver.t) (lines : list string) :
  Driver.tree (snd (Driver.loadCourses this lines))
  = Driver.tree (snd (Driver.loadCourses Driver.new lines))
  /\ (forall e, e = MalformedKey \/ e = EmptyTitle ->
        (fst (Driver.loadCourses this lines) = Driver.Failed e
         <-> fst (Driver.loadCourses Driver.new lines) = Driver.Failed e)).
Proof.
  destruct (forallb parse_ok lines) eqn:Hok.
  - unfold Driver.loadCourses. cbv zeta.
    rewrite !read_lines_ok by exact Hok.
    cbn [Driver.tree Driver.prereqTable BinarySearchTree.drain Driver.new].
    split.
    + destruct (Driver.checkPrerequisites _);
        destruct (Driver.checkPrerequisites _); reflexivity.
    + intros e He.
      destruct (Driver.checkPrerequisites _);
        destruct (Driver.checkPrerequisites _); cbn [fst];
        split; intros H; destruct He as [-> | ->]; discriminate.
  - destruct (first_bad_line lines Hok) as (good & bad & rest & -> & Hg & Hb).
    rewrite !load_aborts_aux by assumption. cbn [fst snd Driver.tree].
    split; [reflexivity|]. intros e _. reflexivity.
Qed.

(** X16. In a fresh [Driver], a catalog whose lines all parse and whose
    prerequisite fields are each the key field of some line (and hold no
    zero byte) loads, however many courses and prerequisites it has. In
    particular a catalog without prerequisites loads, and an empty or
    missing file loads as zero courses. *)
Theorem resolved_catalog_loads (this : Driver.t) (lines : list string) :
  Driver.prereqTable this
  = PrereqHashTable.new DEFAULT_PREREQUISITE_TABLE_SIZE ->
  forallb parse_ok lines = true ->
  Forall (fun q => nul_free q = true /\ In q (map key_field lines))
    (registered lines) ->
  fst (Driver.loadCourses this lines)
  = Driver.Loaded (Z.of_nat (length lines)).
Proof.
  intros Hnew Hok Hres.
  assert (Hwf : wf (Driver.prereqTable this)) by (rewrite Hnew; apply wf_new).
  rewrite (loadCourses_parsed this lines Hwf Hok). rewrite Hnew. cbn [fst].
  rewrite List.Forall_forall in Hres.
  assert (Hlen : forall q, In q (map key_field lines) ->
                   String.length q = 7%nat).
  { intros q Hq. apply in_map_iff in Hq. destruct Hq as (line & <- & Hl).
    rewrite forallb_forall in Hok. specialize (Hok line Hl).
    unfold parse_ok in Hok. apply andb_prop in Hok. destruct Hok as [Hk _].
    apply Nat.eqb_eq in Hk. exact Hk. }
  destruct (first_unresolved _ _) as [q|] eqn:E; [|reflexivity].
  exfalso. unfold first_unresolved in E. apply find_some in E.
  destruct E as [Hq Hex]. cbv beta in Hex. apply negb_true_iff in Hex.
  assert (Hin : In q (registered lines)).
  { apply (queries_registered_nul_free _ q); [|exact Hq].
    apply List.Forall_forall. intros k Hk. destruct (Hres k Hk) as [Hn Hkey].
    split; [exact Hn|]. rewrite (Hlen k Hkey). lia. }
  destruct (Hres q Hin) as [_ Hkey].
  rewrite Exists_insert_all, (Hlen q Hkey) in Hex. cbn [Nat.eqb negb] in Hex.
  rewrite andb_true_r in Hex.
  assert (Ht : existsb (fun c => String.eqb (Course.number c) q)
                 (map course_of lines) = true); [|congruence].
  apply existsb_exists. apply in_map_iff in Hkey.
  destruct Hkey as (line & <- & Hl). exists (course_of line).
  split; [apply in_map, Hl|]. apply String.eqb_refl.
Qed.

(** * The session: menu, search and run *)

Section Session.

Lemma append_nil_r (s : string) : (s ++ "")%string = s.
Proof. induction s as [|c s IH]; simpl; [reflexivity|]. rewrite IH. reflexivity. Qed.

Lemma details_loop_concat (c : string) (rest : list string) :
  (c ++ Course.details_loop true rest)%string = String.concat ", " (c :: rest).
Proof.
  revert c. induction rest as [|d rest IH]; intros c.
  - simpl. apply append_nil_r.
  - rewrite concat_cons by discriminate. rewrite <- IH.
    cbn [Course.details_loop]. rewrite !append_assoc. reflexivity.
Qed.

Lemma Search_loaded_lines (lines : list string) (k : string) :
  BinarySearchTree.Search
    (insert_all BinarySearchTree.new (map course_of lines)) k
  = default Course.new
      (option_map course_of
         (List.find (fun line => String.eqb (key_field line) k) lines)).
Proof.
  rewrite Search_insert_all. cbn [finds BinarySearchTree.new].
  induction lines as [|line lines IH]; [reflexivity|].
  cbn [map List.find Course.number course_of].
  destruct (String.eqb (key_field line) k); [reflexivity|exact IH].
Qed.

Lemma menu_spec (stoi : string -> Driver.stoi_result) (cin : list string) :
  forall cout cerr,
    match Driver.menu stoi cin cout cerr with
    | Driver.Chosen c cin' _ _ =>
        Driver.is_choice c = true
        /\ exists skipped s,
             cin = skipped ++ s :: cin'
             /\ Forall (rejected stoi) skipped
             /\ stoi s = Driver.stoi_value c
    | Driver.MenuThrew cin' _ _ =>
        exists skipped s,
          cin = skipped ++ s :: cin'
          /\ Forall (rejected stoi) skipped
          /\ stoi s = Driver.stoi_out_of_range
    | Driver.MenuSpins _ _ => Forall (rejected stoi) cin
    end.
Proof.
  induction cin as [|s cin IH]; intros cout cerr; cbn [Driver.menu].
  - constructor.
  - destruct (stoi s) as [c| |] eqn:E.
    + destruct (Driver.is_choice c) eqn:Hc.
      * split; [exact Hc|]. exists [], s. auto.
      * match goal with
        | |- context [Driver.menu stoi cin ?o ?e] =>
            specialize (IH o e); destruct (Driver.menu stoi cin o e)
        end.
        -- destruct IH as (Hch & sk & s' & -> & Hsk & Hs').
           split; [exact Hch|]. exists (s :: sk), s'. split; [reflexivity|].
           split; [|exact Hs']. constructor; [|exact Hsk].
           right. exists c. auto.
        -- destruct IH as (sk & s' & -> & Hsk & Hs').
           exists (s :: sk), s'. split; [reflexivity|].
           split; [|exact Hs']. constructor; [|exact Hsk].
           right. exists c. auto.
        -- constructor; [|exact IH]. right. exists c. auto.
    + match goal with
      | |- context [Driver.menu stoi cin ?o ?e] =>
          specialize (IH o e); destruct (Driver.menu stoi cin o e)
      end.
      * destruct IH as (Hch & sk & s' & -> & Hsk & Hs').
        split; [exact Hch|]. exists (s :: sk), s'. split; [reflexivity|].
        split; [|exact Hs']. constructor; [|exact Hsk]. left. exact E.
      * destruct IH as (sk & s' & -> & Hsk & Hs').
        exists (s :: sk), s'. split; [reflexivity|].
        split; [|exact Hs']. constructor; [|exact Hsk]. left. exact E.
      * constructor; [|exact IH]. left. exact E.
    + exists [], s. auto.
Qed.

Lemma menu_Chosen_shorter (stoi : string -> Driver.stoi_result)
    (cin cin' : list string) (cout cerr cout' cerr' : string) (c : Z) :
  Driver.menu stoi cin cout cerr = Driver.Chosen c cin' cout' cerr' ->
  (length cin' < length cin)%nat.
Proof.
  intros H. pose proof (menu_spec stoi cin cout cerr) as Hs.
  rewrite H in Hs. destruct Hs as (_ & sk & s & -> & _).
  rewrite length_app. simpl. lia.
Qed.

Lemma menu_app (stoi : string -> Driver.stoi_result)
    (cin extra : list string) :
  forall cout cerr,
    match Driver.menu stoi cin cout cerr with
    | Driver.Chosen c cin' cout' cerr' =>
        Driver.menu stoi (cin ++ extra) cout cerr
        = Driver.Chosen c (cin' ++ extra) cout' cerr'
    | Driver.MenuThrew cin' cout' cerr' =>
        Driver.menu stoi (cin ++ extra) cout cerr
        = Driver.MenuThrew (cin' ++ extra) cout' cerr'
    | Driver.MenuSpins _ _ => True
    end.
Proof.
  induction cin as [|s cin IH]; intros cout cerr;
    cbn [Driver.menu app]; [exact I|].
  destruct (stoi s) as [c| |]; [destruct (Driver.is_choice c)| |];
    try reflexivity; apply IH.
Qed.

Lemma run_loop_nil (turns : nat) (stoi : string -> Driver.stoi_result)
    (file : nat -> list string) (loads : nat) (this : Driver.t)
    (cout cerr : string) :
  ~ ended (Driver.run_loop turns stoi file loads this [] cout cerr).
Proof. destruct turns; simpl; auto. Qed.

Lemma run_loop_extend (turns : nat) (stoi : string -> Driver.stoi_result)
    (file : nat -> list string) (extra : list string) :
  forall (more : nat) (loads : nat) (this : Driver.t) (cin : list string)
         (cout cerr : string),
    (turns <= more)%nat ->
    ended (Driver.run_loop turns stoi file loads this cin cout cerr) ->
    Driver.run_loop more stoi file loads this (cin ++ extra) cout cerr
    = Driver.run_loop turns stoi file loads this cin cout cerr.
Proof.
  induction turns as [|turns IH]; intros more loads this cin cout cerr Hle He;
    [contradiction|].
  destruct more as [|more]; [lia|].
  cbn [Driver.run_loop] in He |- *.
  pose proof (menu_app stoi cin extra cout cerr) as Hm.
  destruct (Driver.menu stoi cin cout cerr) as [c cin1 o1 e1|cin1 o1 e1|o1 e1];
    [| |contradiction]; rewrite Hm; [|reflexivity].
  destruct (c =? Driver.LoadCourses).
  { destruct (Driver.loadCourses this (file loads)) as [[num|e] this1];
      [|reflexivity].
    apply IH; [lia|exact He]. }
  destruct (c =? Driver.DisplayCourses); [apply IH; [lia|exact He]|].
  destruct (c =? Driver.FindCourse); [|reflexivity].
  destruct cin1 as [|l cin2].
  - exfalso. cbn [Driver.getline_cin] in He.
    destruct (Driver.search this EmptyString) as [out err].
    exact (run_loop_nil _ _ _ _ _ _ _ He).
  - cbn [Driver.getline_cin app] in He |- *.
    destruct (Driver.search this l) as [out err].
    apply IH; [lia|exact He].
Qed.

Lemma run_loop_enough (turns : nat) (stoi : string -> Driver.stoi_result)
    (file : nat -> list string) :
  forall (loads : nat) (this : Driver.t) (cin : list string)
         (cout cerr : string),
    (length cin < turns)%nat ->
    Driver.run_loop turns stoi file loads this cin cout cerr
    <> Driver.Unfinished.
Proof.
  induction turns as [|turns IH]; intros loads this cin cout cerr Hlen;
    [lia|].
  cbn [Driver.run_loop].
  destruct (Driver.menu stoi cin cout cerr) as [c cin1 o1 e1|cin1 o1 e1|o1 e1]
    eqn:Hm; [|discriminate..].
  apply menu_Chosen_shorter in Hm.
  destruct (c =? Driver.LoadCourses).
  { destruct (Driver.loadCourses this (file loads)) as [[num|e] this1];
      [|discriminate].
    apply IH. lia. }
  destruct (c =? Driver.DisplayCourses); [apply IH; lia|].
  destruct (c =? Driver.FindCourse); [|discriminate].
  destruct cin1 as [|l cin2]; cbn [Driver.getline_cin].
  - destruct (Driver.search this EmptyString) as [out err]. apply IH. lia.
  - destruct (Driver.search this l) as [out err]. apply IH.
    simpl in Hm. lia.
Qed.

End Session.

(** X17. [displayDetails] prints the line of [display] and, when the
    course has prerequisites, one more line: [Prerequisites: ] followed by
    the prerequisites separated by a comma and a space. *)
Theorem displayDetails_format (c : Course.t) :
  Course.displayDetails c
  = (Course.display c
     ++ match Course.prerequisites c with
        | [] => ""
        | _ :: _ =>
            "Prerequisites: " ++ String.concat ", " (Course.prerequisites c)
            ++ endl
        end)%string.
Proof.
  unfold Course.displayDetails.
  destruct (Course.prerequisites c) as [|p rest]; [reflexivity|].
  cbn [Course.details_loop]. rewrite <- details_loop_concat.
  rewrite !append_assoc. reflexivity.
Qed.

(** X18. [search] after a load that succeeded: a line that is not seven
    characters long is refused on [cerr] without a look at the store; a
    key of seven characters prints the details of the first line of the
    file with that key field, or that no course matches. *)
Theorem search_after_load (this this1 : Driver.t) (lines : list string)
    (n : Z) (k : string) :
  Driver.loadCourses this lines = (Driver.Loaded n, this1) ->
  Driver.search this1 k
  = if negb (Nat.eqb (String.length k) 7)
    then ("What course do you want to know about? ",
          (endl ++ "Invalid course number" ++ endl)%string)
    else match List.find (fun line => String.eqb (key_field line) k) lines with
         | Some line =>
             (("What course do you want to know about? " ++ endl
               ++ Course.displayDetails (course_of line))%string, "")
         | None =>
             (("What course do you want to know about? " ++ endl
               ++ "No matching course found." ++ endl)%string, "")
         end.
Proof.
  intros H. destruct (loadCourses_Loaded _ _ _ _ H) as (_ & _ & ->).
  unfold Driver.search. cbn [Driver.tree].
  destruct (Nat.eqb_spec (String.length k) 7) as [Hk|Hk]; cbn [negb].
  - rewrite Hk. cbn [Nat.eqb orb]. rewrite Search_loaded_lines.
    destruct (List.find _ lines) as [line|] eqn:E; [|reflexivity].
    apply find_some in E. destruct E as [_ E]. apply String.eqb_eq in E.
    change (default Course.new (option_map course_of (Some line)))
      with (course_of line).
    unfold Course.empty.
    change (Course.number (course_of line)) with (key_field line).
    rewrite E, Hk. reflexivity.
  - rewrite orb_true_r. reflexivity.
Qed.

(** X19. [menu] returns one of the choices 1, 2, 3 and 9 only. It reads
    the lines up to the first one on which [stoi] gives a choice, which it
    returns, or throws [out_of_range], which leaves [menu]; every line
    before that one was rejected, and no line after it is read. *)
Theorem menu_returns_choice (stoi : string -> Driver.stoi_result)
    (cin : list string) (cout cerr : string) :
  match Driver.menu stoi cin cout cerr with
  | Driver.Chosen c cin' _ _ =>
      (c = 1 \/ c = 2 \/ c = 3 \/ c = 9)
      /\ exists skipped s,
           cin = skipped ++ s :: cin'
           /\ Forall (rejected stoi) skipped
           /\ stoi s = Driver.stoi_value c
  | Driver.MenuThrew cin' _ _ =>
      exists skipped s,
        cin = skipped ++ s :: cin'
        /\ Forall (rejected stoi) skipped
        /\ stoi s = Driver.stoi_out_of_range
  | Driver.MenuSpins _ _ => Forall (rejected stoi) cin
  end.
Proof.
  pose proof (menu_spec stoi cin cout cerr) as H.
  destruct (Driver.menu stoi cin cout cerr); try exact H.
  destruct H as (Hc & H). split; [|exact H].
  unfold Driver.is_choice, Driver.LoadCourses, Driver.DisplayCourses,
    Driver.FindCourse, Driver.Exit in Hc.
  lia.
Qed.

(** X21. Once [run] has returned after [Exit] or an exception has left it
    (a load that failed, or [out_of_range] in [menu]), nothing more is
    read: with any lines added after those it used, the store, the table
    and the text on [cout] and [cerr] are the same. In particular nothing
    is listed or looked up after a load that failed. *)
Theorem run_ignores_input_after_end (stoi : string -> Driver.stoi_result)
    (file : nat -> list string) (this : Driver.t) (cin extra : list string) :
  ended (Driver.run stoi file this cin) ->
  Driver.run stoi file this (cin ++ extra) = Driver.run stoi file this cin.
Proof.
  unfold Driver.run. intros He. apply run_loop_extend; [|exact He].
  rewrite length_app. lia.
Qed.

(** X22. The slots that the loop of [insert] tries in its [capacity] turns
    are all the slots of the table, each tried once: [insert] gives up
    only when every slot holds another key. *)
Theorem probe_visits_every_slot (t : PrereqHashTable.t) (k : string) :
  wf t ->
  Permutation
    (map (fun idx =>
            Prerequisite.hash (Prerequisite.load Prerequisite.new k)
              (Z.of_nat idx) (PrereqHashTable.capacity t) mod u_int32_max)
       (seq 0 (Z.to_nat (PrereqHashTable.capacity t))))
    (map Z.of_nat (seq 0 (Z.to_nat (PrereqHashTable.capacity t)))).
Proof.
  intros Hwf. pose proof Hwf as (Hc & _).
  rewrite (map_ext_in _ (fun idx => probe t (key_num k) (Z.of_nat idx))).
  2:{ intros i Hi. apply in_seq in Hi. rewrite load_key_num.
      apply hash_probe; [exact Hwf|apply key_num_range|lia]. }
  apply Permutation.NoDup_Permutation.
  - apply NoDup_map_NoDup_ForallPairs; [|apply seq_NoDup].
    intros i j Hi Hj E. apply in_seq in Hi, Hj.
    apply (probe_inj t _ _ _ Hwf) in E; lia.
  - apply NoDup_map_NoDup_ForallPairs; [|apply seq_NoDup].
    intros i j _ _ E. lia.
  - intros x. rewrite !in_map_iff. split.
    + intros (i & <- & Hi).
      pose proof (probe_range t (key_num k) (Z.of_nat i) Hwf) as Hr.
      exists (Z.to_nat (probe t (key_num k) (Z.of_nat i))).
      split; [lia|]. apply in_seq. lia.
    + intros (i & <- & Hi). apply in_seq in Hi.
      destruct (probe_surj t (key_num k) (Z.of_nat i) Hwf ltac:(lia))
        as (j & Hj & E).
      exists (Z.to_nat j). split; [rewrite Z2Nat.id by lia; exact E|].
      apply in_seq. lia.
Qed.

(** * Instances of the properties above *)

Lemma sorted_input_degenerates_witness :
  StronglySorted key_le
    [Course.mk "CSCI100" "Intro" [];
     Course.mk "CSCI200" "Data Structures" ["CSCI100"];
     Course.mk "CSCI300" "Algorithms" ["CSCI200"]]
  /\ height
       (insert_all BinarySearchTree.new
          [Course.mk "CSCI100" "Intro" [];
           Course.mk "CSCI200" "Data Structures" ["CSCI100"];
           Course.mk "CSCI300" "Algorithms" ["CSCI200"]])
     = 3%nat.
Proof.
  assert (H : StronglySorted key_le
                [Course.mk "CSCI100" "Intro" [];
                 Course.mk "CSCI200" "Data Structures" ["CSCI100"];
                 Course.mk "CSCI300" "Algorithms" ["CSCI200"]])
    by (repeat constructor).
  split; [exact H|].
  exact (proj1 (proj2 (sorted_input_degenerates _ H))).
Defined.

Lemma insert_adds_at_most_one_witness :
  reachable (PrereqHashTable.new DEFAULT_PREREQUISITE_TABLE_SIZE)
  /\ PrereqHashTable.capacity
       (PrereqHashTable.insert
          (PrereqHashTable.new DEFAULT_PREREQUISITE_TABLE_SIZE) "CSCI100")
     = 27.
Proof.
  split; [apply reachable_new|].
  exact (proj1 (insert_adds_at_most_one
                  (PrereqHashTable.new DEFAULT_PREREQUISITE_TABLE_SIZE)
                  "CSCI100" reachable_new)).
Defined.

Lemma insert_zero_noop_witness :
  reachable (PrereqHashTable.new DEFAULT_PREREQUISITE_TABLE_SIZE)
  /\ all_chars (fun c => Prerequisite.byte c =? 0) (substring 0 7 "") = true
  /\ PrereqHashTable.insert
       (PrereqHashTable.new DEFAULT_PREREQUISITE_TABLE_SIZE) ""
     = PrereqHashTable.new DEFAULT_PREREQUISITE_TABLE_SIZE.
Proof.
  split; [apply reachable_new|]. split; [reflexivity|].
  apply (insert_zero_noop
           (PrereqHashTable.new DEFAULT_PREREQUISITE_TABLE_SIZE) ""
           reachable_new eq_refl).
Defined.

Lemma held_iff_registered_witness :
  Forall (fun k => key_format k = true) ["CSCI100"; "CSCI200"; "CSCI100"]
  /\ incl ["CSCI100"; "CSCI200"; "CSCI100"] ["CSCI100"; "CSCI200"; "CSCI100"]
  /\ Z.of_nat (length ["CSCI100"; "CSCI200"; "CSCI100"])
     <= DEFAULT_PREREQUISITE_TABLE_SIZE
  /\ entries
       (register_all (PrereqHashTable.new DEFAULT_PREREQUISITE_TABLE_SIZE)
          ["CSCI100"; "CSCI200"; "CSCI100"])
       "CSCI100" = 1%nat.
Proof.
  assert (Hf : Forall (fun k => key_format k = true)
                 ["CSCI100"; "CSCI200"; "CSCI100"])
    by (repeat constructor).
  assert (Hl : Z.of_nat (length ["CSCI100"; "CSCI200"; "CSCI100"])
               <= DEFAULT_PREREQUISITE_TABLE_SIZE)
    by (vm_compute; discriminate).
  split; [exact Hf|]. split; [apply incl_refl|]. split; [exact Hl|].
  apply (proj2 (held_iff_registered _ _ "CSCI100" Hf (incl_refl _) Hl)).
  simpl. auto.
Defined.

Lemma load_keeps_tail_witness :
  Prerequisite.getString
    (Prerequisite.load (Prerequisite.load Prerequisite.new "CSCI100") "MA")
  = "MACI100".
Proof.
  exact (proj1 (load_keeps_tail "CS" "CI100" "MA" eq_refl ltac:(simpl; lia)
                  eq_refl eq_refl)).
Defined.

Lemma trailing_delimiter_ignored_witness :
  (2 <= length (Course.fields "CSCI100,Intro"))%nat
  /\ Course.init Course.new "CSCI100,Intro," (PrereqHashTable.new DEFAULT_PREREQUISITE_TABLE_SIZE)
     = Course.init Course.new "CSCI100,Intro" (PrereqHashTable.new DEFAULT_PREREQUISITE_TABLE_SIZE).
Proof.
  split; [simpl; lia|].
  exact (proj1 (trailing_delimiter_ignored "CSCI100,Intro"
                  (PrereqHashTable.new DEFAULT_PREREQUISITE_TABLE_SIZE))).
Defined.

Lemma init_registers_prerequisites_witness :
  fst (fst (Course.init Course.new "CSCI300,Algorithms,CSCI200,,MATH201"
              (PrereqHashTable.new DEFAULT_PREREQUISITE_TABLE_SIZE))) = None
  /\ Course.prerequisites
       (snd (fst (Course.init Course.new "CSCI300,Algorithms,CSCI200,,MATH201"
                    (PrereqHashTable.new DEFAULT_PREREQUISITE_TABLE_SIZE))))
     = ["CSCI200"; "MATH201"].
Proof.
  split; [reflexivity|].
  rewrite (proj1 (init_registers_prerequisites
                    "CSCI300,Algorithms,CSCI200,,MATH201"
                    (PrereqHashTable.new DEFAULT_PREREQUISITE_TABLE_SIZE) eq_refl)).
  reflexivity.
Defined.

Lemma load_aborts_at_first_bad_line_witness :
  forallb parse_ok ["CSCI100,Intro"] = true
  /\ parse_ok "CS10,Bad Key," = false
  /\ fst (Driver.loadCourses Driver.new
            (["CSCI100,Intro"] ++ "CS10,Bad Key," :: ["CSCI200,Data Structures"]))
     = Driver.Failed MalformedKey.
Proof.
  split; [reflexivity|]. split; [reflexivity|].
  rewrite (load_aborts_at_first_bad_line Driver.new ["CSCI100,Intro"]
             ["CSCI200,Data Structures"] "CS10,Bad Key," eq_refl eq_refl).
  reflexivity.
Defined.

Lemma loaded_store_witness :
  Driver.loadCourses Driver.new valid_catalog
  = (Driver.Loaded 3, snd (Driver.loadCourses Driver.new valid_catalog))
  /\ BinarySearchTree.Exists
       (Driver.tree (snd (Driver.loadCourses Driver.new valid_catalog)))
       "CSCI200" = true.
Proof.
  split; [reflexivity|].
  destruct (loaded_store Driver.new
              (snd (Driver.loadCourses Driver.new valid_catalog))
              valid_catalog 3 eq_refl) as (_ & _ & _ & Hex & _).
  rewrite Hex. reflexivity.
Defined.

Lemma resolved_catalog_loads_witness :
  Driver.prereqTable Driver.new
  = PrereqHashTable.new DEFAULT_PREREQUISITE_TABLE_SIZE
  /\ forallb parse_ok valid_catalog = true
  /\ Forall (fun q => nul_free q = true /\ In q (map key_field valid_catalog))
       (registered valid_catalog)
  /\ fst (Driver.loadCourses Driver.new valid_catalog) = Driver.Loaded 3.
Proof.
  assert (H : Forall (fun q => nul_free q = true
                               /\ In q (map key_field valid_catalog))
                (registered valid_catalog))
    by (repeat constructor; simpl; auto).
  split; [reflexivity|]. split; [reflexivity|]. split; [exact H|].
  exact (resolved_catalog_loads Driver.new valid_catalog eq_refl eq_refl H).
Defined.

Lemma search_after_load_witness :
  Driver.loadCourses Driver.new valid_catalog
  = (Driver.Loaded 3, snd (Driver.loadCourses Driver.new valid_catalog))
  /\ Driver.search (snd (Driver.loadCourses Driver.new valid_catalog))
       "CSCI200"
     = (("What course do you want to know about? " ++ endl
         ++ "CSCI200, Data Structures" ++ endl
         ++ "Prerequisites: CSCI100" ++ endl)%string, "").
Proof.
  split; [reflexivity|].
  rewrite (search_after_load Driver.new
             (snd (Driver.loadCourses Driver.new valid_catalog))
             valid_catalog 3 "CSCI200" eq_refl).
  reflexivity.
Defined.

Lemma run_ignores_input_after_end_witness :
  ended (Driver.run stoi_digit (fun _ => catalog_v1) Driver.new ["1"; "9"])
  /\ Driver.run stoi_digit (fun _ => catalog_v1) Driver.new
       (["1"; "9"] ++ ["2"; "3"])
     = Driver.run stoi_digit (fun _ => catalog_v1) Driver.new ["1"; "9"].
Proof.
  assert (H : ended (Driver.run stoi_digit (fun _ => catalog_v1) Driver.new
                       ["1"; "9"]))
    by (vm_compute; exact I).
  split; [exact H|].
  exact (run_ignores_input_after_end stoi_digit (fun _ => catalog_v1)
           Driver.new ["1"; "9"] ["2"; "3"] H).
Defined.

Lemma probe_visits_every_slot_witness :
  wf (PrereqHashTable.new DEFAULT_PREREQUISITE_TABLE_SIZE)
  /\ Permutation
       (map (fun idx =>
               Prerequisite.hash (Prerequisite.load Prerequisite.new "CSCI100")
                 (Z.of_nat idx) 27 mod u_int32_max)
          (seq 0 27))
       (map Z.of_nat (seq 0 27)).
Proof.
  split; [apply wf_new|].
  exact (probe_visits_every_slot
           (PrereqHashTable.new DEFAULT_PREREQUISITE_TABLE_SIZE) "CSCI100"
           wf_new).
Defined.

(** X23. A load never removes a key from the table: a well-formed key
    held when the load begins is still held when it ends, whether the
    load succeeds or fails and whatever the lines are. *)
Theorem load_never_forgets (this : Driver.t) (lines : list string)
    (q : string) :
  reachable (Driver.prereqTable this) ->
  key_format q = true ->
  holds (Driver.prereqTable this) q = true ->
  holds (Driver.prereqTable (snd (Driver.loadCourses this lines))) q = true.
Proof.
  intros Hr Hq Hh. pose proof (wf_reachable _ Hr) as Hwf.
  destruct (forallb parse_ok lines) eqn:Hok.
  - rewrite (loadCourses_parsed this lines Hwf Hok).
    cbn [snd Driver.prereqTable]. apply holds_register_all; assumption.
  - destruct (first_bad_line lines Hok) as (good & bad & rest & -> & Hg & Hb).
    rewrite load_aborts_aux by assumption.
    cbn [snd Driver.prereqTable]. apply holds_register_all; assumption.
Qed.

Lemma load_never_forgets_witness :
  reachable (Driver.prereqTable
               (snd (Driver.loadCourses Driver.new catalog_v1)))
  /\ key_format "CSCI100" = true
  /\ holds (Driver.prereqTable
              (snd (Driver.loadCourses Driver.new catalog_v1))) "CSCI100"
     = true
  /\ holds (Driver.prereqTable
              (snd (Driver.loadCourses
                      (snd (Driver.loadCourses Driver.new catalog_v1))
                      catalog_v2))) "CSCI100"
     = true.
Proof.
  assert (Hr : reachable (Driver.prereqTable
                            (snd (Driver.loadCourses Driver.new catalog_v1))))
    by (apply (reachable_register_all (registered catalog_v1)), reachable_new).
  split; [exact Hr|]. split; [reflexivity|]. split; [reflexivity|].
  exact (load_never_forgets
           (snd (Driver.loadCourses Driver.new catalog_v1)) catalog_v2
           "CSCI100" Hr eq_refl eq_refl).
Defined.

(** X24. The table of a [Driver] always has its twenty-seven slots, so it
    never holds more than twenty-seven keys and the validation pass never
    asks the store for more. *)
Theorem at_most_capacity_keys (t : PrereqHashTable.t) :
  reachable t ->
  PrereqHashTable.capacity t = DEFAULT_PREREQUISITE_TABLE_SIZE
  /\ length (PrereqHashTable.items t) = 27%nat
  /\ (length (queries t) <= 27)%nat.
Proof.
  intros Hr.
  assert (Hc : PrereqHashTable.capacity t = DEFAULT_PREREQUISITE_TABLE_SIZE).
  { induction Hr as [|t k Hr IH]; [reflexivity|].
    destruct (fills_insert t k (wf_reachable t Hr)) as (E & _).
    rewrite E. exact IH. }
  destruct (wf_reachable t Hr) as (_ & Hl & _).
  assert (Hlen : length (PrereqHashTable.items t) = 27%nat)
    by (rewrite Hc in Hl; unfold DEFAULT_PREREQUISITE_TABLE_SIZE in Hl; lia).
  split; [exact Hc|]. split; [exact Hlen|].
  unfold queries, occupied. rewrite length_map, <- Hlen.
  apply filter_length_le.
Qed.

Lemma at_most_capacity_keys_witness :
  reachable full_table /\ (length (queries full_table) <= 27)%nat.
Proof.
  assert (Hr : reachable full_table)
    by (apply reachable_register_all, reachable_new).
  split; [exact Hr|].
  exact (proj2 (proj2 (at_most_capacity_keys full_table Hr))).
Defined.

(** * The claims on equal keys and on truncated keys *)

Section Revisited.

Import BinarySearchTree.

Lemma Insert_equal_key (c b : Course.t) (l r : Node) :
  Course.number c = Course.number b ->
  Insert (mkNode c l r) b = mkNode c l (Insert r b).
Proof.
  intros E. rewrite (Insert_addNode r b). cbn [Insert].
  rewrite addNode_mkNode, E, ltb_irrefl. reflexivity.
Qed.

Lemma first_unresolved_None (root : BinarySearchTree.t) (qs : list string) :
  first_unresolved root qs = None
  <-> (forall q, In q qs -> Exists root q = true).
Proof.
  unfold first_unresolved. split.
  - intros E q Hq. pose proof (find_none _ _ E q Hq) as H.
    cbv beta in H. apply negb_false_iff in H. exact H.
  - intros H. destruct (List.find _ qs) as [q|] eqn:E; [|reflexivity].
    apply find_some in E. destruct E as [Hq E]. cbv beta in E.
    rewrite (H q Hq) in E. discriminate.
Qed.

(** The keys held after [insert] of a field, in a table with room: the
    keys held before and what the slot of the field reads back as. *)
Lemma queries_insert (t : PrereqHashTable.t) (k q : string) :
  reachable t -> has_room t = true -> key_num k <> 0 ->
  (In q (queries (PrereqHashTable.insert t k))
   <-> q = Prerequisite.getString (Prerequisite.mk (key_num k))
       \/ In q (queries t)).
Proof.
  intros Hr Hroom Hv. pose proof (wf_reachable t Hr) as Hwf.
  pose proof (wf_insert t k Hwf) as Hwf'.
  split.
  - intros Hq. unfold queries in Hq. apply in_map_iff in Hq.
    destruct Hq as (p & <- & Hp). apply occupied_In in Hp.
    destruct Hp as [Hp Hnz].
    assert (Hin : In (Prerequisite.num p)
                    (nums (PrereqHashTable.insert t k)))
      by (apply in_map; exact Hp).
    destruct p as [n]. cbn [Prerequisite.num] in *.
    destruct (nums_insert t k n Hwf Hin) as [H| ->]; [|left; reflexivity].
    right. apply queries_of_num; assumption.
  - intros [->|Hq].
    + apply queries_of_num; [|exact Hv]. apply insert_In_num; assumption.
    + unfold queries in Hq. apply in_map_iff in Hq.
      destruct Hq as (p & <- & Hp). apply occupied_In in Hp.
      destruct Hp as [Hp Hnz]. destruct p as [n].
      cbn [Prerequisite.num] in Hnz.
      apply queries_of_num; [|exact Hnz].
      apply (nums_fills t); auto using fills_insert.
      apply (in_map Prerequisite.num) in Hp. exact Hp.
Qed.

End Revisited.

(** C9. A record [b] whose key is the key of a stored record is routed to
    the right of that record and kept: the node and its left subtree stay
    as they are, the enumeration gains [b], nothing is rejected,
    overwritten or merged. Of the two insertion orders of two distinct
    records [a] and [b] of equal key, [b] is never returned by [Search] in
    exactly one: when it is inserted after [a], every [Search] answers as
    before its insertion; when it is inserted before [a], [Search] on the
    key returns it. *)
Theorem duplicate_key_found_in_one_order (root : BinarySearchTree.t)
    (a b : Course.t) :
  Course.number a = Course.number b ->
  a <> b ->
  b <> Course.new ->
  finds root (Course.number b) = false ->
  (forall c l r, Course.number c = Course.number b ->
     BinarySearchTree.Insert (mkNode c l r) b
     = mkNode c l (BinarySearchTree.Insert r b))
  /\ Permutation
       (BinarySearchTree.inOrder
          (BinarySearchTree.Insert (BinarySearchTree.Insert root a) b))
       (b :: a :: BinarySearchTree.inOrder root)
  /\ (forall k,
        BinarySearchTree.Search
          (BinarySearchTree.Insert (BinarySearchTree.Insert root a) b) k
        = BinarySearchTree.Search (BinarySearchTree.Insert root a) k)
  /\ never_returned
       (BinarySearchTree.Insert (BinarySearchTree.Insert root a) b) b
  /\ BinarySearchTree.Search
       (BinarySearchTree.Insert (BinarySearchTree.Insert root b) a)
       (Course.number b) = b
  /\ ~ never_returned
         (BinarySearchTree.Insert (BinarySearchTree.Insert root b) a) b.
Proof.
  intros Hk Hab Hnew Hfresh.
  assert (Hsame : forall k,
            BinarySearchTree.Search
              (BinarySearchTree.Insert (BinarySearchTree.Insert root a) b) k
            = BinarySearchTree.Search (BinarySearchTree.Insert root a) k)
    by (intros k; rewrite !Insert_addNode;
        apply Search_addNode_again; exact Hk).
  assert (Hb : BinarySearchTree.Search
                 (BinarySearchTree.Insert (BinarySearchTree.Insert root b) a)
                 (Course.number b) = b).
  { rewrite !Insert_addNode.
    rewrite Search_addNode_again by (symmetry; exact Hk).
    apply Search_addNode_fresh. exact Hfresh. }
  split; [intros c l r E; apply Insert_equal_key; exact E|].
  split; [rewrite !Insert_addNode, !inOrder_addNode; reflexivity|].
  split; [exact Hsame|]. split; [|split; [exact Hb|]].
  - intros k E. rewrite Hsame, Insert_addNode, Search_addNode in E.
    destruct (finds root k) eqn:Hf.
    + destruct (Search_found root k Hf) as [Hn _]. rewrite E in Hn.
      rewrite Hn, Hf in Hfresh. discriminate.
    + destruct (String.eqb (Course.number a) k); [exact (Hab E)|].
      exact (Hnew (eq_sym E)).
  - intros H. exact (H (Course.number b) Hb).
Qed.

Lemma duplicate_key_found_in_one_order_witness :
  Course.number dup_first = Course.number dup_second
  /\ dup_first <> dup_second
  /\ dup_second <> Course.new
  /\ finds BinarySearchTree.new (Course.number dup_second) = false
  /\ insert_all BinarySearchTree.new [dup_first; dup_second]
     = mkNode dup_first nullptr (mkNode dup_second nullptr nullptr)
  /\ never_returned (insert_all BinarySearchTree.new [dup_first; dup_second])
       dup_second
  /\ BinarySearchTree.Search
       (insert_all BinarySearchTree.new [dup_second; dup_first]) "CSCI100"
     = dup_second.
Proof.
  assert (H1 : dup_first <> dup_second) by discriminate.
  assert (H2 : dup_second <> Course.new) by discriminate.
  split; [reflexivity|]. split; [exact H1|]. split; [exact H2|].
  split; [reflexivity|].
  destruct (duplicate_key_found_in_one_order BinarySearchTree.new
              dup_first dup_second eq_refl H1 H2 eq_refl)
    as (Hright & _ & _ & Hnever & Hfound & _).
  split; [|split; [exact Hnever|exact Hfound]].
  exact (Hright dup_first nullptr nullptr eq_refl).
Defined.

(** C10. [insert] keeps the first seven characters of the field at most:
    a field and its first seven characters are registered alike, and so
    are two fields that agree on their first seven characters. The slot
    reads back as those seven characters (fields without a zero byte), and
    no key held by the table is longer than seven characters.
    [checkPrerequisites] asks the store for the keys held by the table and
    for nothing else: it returns [false] on a held key that the store
    lacks, and [true] when the store has them all. So after a field was
    registered in a table with room, the validation pass succeeds exactly
    when the store has the seven-character prefix of the field and the
    keys held before, whether or not it has the field itself. *)
Theorem register_truncates (t : PrereqHashTable.t) (k k' : string) :
  key_num k = key_num (substring 0 7 k)
  /\ PrereqHashTable.insert t k = PrereqHashTable.insert t (substring 0 7 k)
  /\ (substring 0 7 k = substring 0 7 k' ->
      PrereqHashTable.insert t k = PrereqHashTable.insert t k')
  /\ (nul_free (substring 0 7 k) = true ->
      Prerequisite.getString (Prerequisite.load Prerequisite.new k)
      = substring 0 7 k)
  /\ (reachable t ->
      (forall q, In q (queries t) -> (String.length q <= 7)%nat)
      /\ (has_room t = true -> nul_free (substring 0 7 k) = true ->
          k <> EmptyString ->
          In (substring 0 7 k) (queries (PrereqHashTable.insert t k)))
      /\ (forall root,
            match Driver.checkPrerequisites (Driver.mk root t) with
            | Some q =>
                In q (queries t) /\ (String.length q <= 7)%nat
                /\ BinarySearchTree.Exists root q = false
            | None =>
                forall q, In q (queries t) ->
                  BinarySearchTree.Exists root q = true
            end)
      /\ (has_room t = true -> nul_free (substring 0 7 k) = true ->
          k <> EmptyString ->
          forall root,
            Driver.checkPrerequisites
              (Driver.mk root (PrereqHashTable.insert t k)) = None
            <-> BinarySearchTree.Exists root (substring 0 7 k) = true
                /\ Driver.checkPrerequisites (Driver.mk root t) = None)).
Proof.
  assert (Hnum : forall a b, substring 0 7 a = substring 0 7 b ->
                   key_num a = key_num b)
    by (intros a b E; rewrite !key_num_pack, E; reflexivity).
  assert (Hins : forall a b, substring 0 7 a = substring 0 7 b ->
                   PrereqHashTable.insert t a = PrereqHashTable.insert t b).
  { intros a b E. unfold PrereqHashTable.insert. cbv zeta.
    rewrite !load_key_num, (Hnum a b E). reflexivity. }
  assert (Hget : nul_free (substring 0 7 k) = true ->
                 Prerequisite.getString (Prerequisite.mk (key_num k))
                 = substring 0 7 k).
  { intros Hn. rewrite (Hnum k (substring 0 7 k))
      by (symmetry; apply substring_idem).
    apply getString_key_num; [exact Hn|apply length_substring_le]. }
  assert (Hnz : nul_free (substring 0 7 k) = true -> k <> EmptyString ->
                key_num k <> 0).
  { intros Hn Hne. rewrite key_num_pack.
    apply nul_free_nonzero; [exact Hn|].
    destruct k; [congruence|discriminate]. }
  split; [apply Hnum; symmetry; apply substring_idem|].
  split; [apply Hins; symmetry; apply substring_idem|].
  split; [apply Hins|].
  split; [exact Hget|].
  intros Hr. pose proof (wf_reachable t Hr) as Hwf.
  assert (Hlen : forall q, In q (queries t) -> (String.length q <= 7)%nat).
  { intros q Hq. unfold queries in Hq. apply in_map_iff in Hq.
    destruct Hq as (p & <- & Hp). apply occupied_In in Hp.
    destruct Hp as [Hp _]. destruct Hwf as (_ & _ & Hf).
    rewrite List.Forall_forall in Hf.
    apply (c_str_length 7). exact (Hf p Hp). }
  split; [exact Hlen|]. split; [|split].
  - intros Hroom Hn Hne. rewrite <- (Hget Hn).
    apply queries_of_num; [apply insert_In_num; assumption|].
    apply Hnz; assumption.
  - intros root.
    rewrite checkPrerequisites_queries by exact Hwf.
    cbn [Driver.tree Driver.prereqTable].
    destruct (first_unresolved root (queries t)) as [q|] eqn:E.
    + unfold first_unresolved in E. apply find_some in E.
      destruct E as [Hq E]. cbv beta in E. apply negb_true_iff in E.
      split; [exact Hq|]. split; [apply Hlen, Hq|exact E].
    + apply first_unresolved_None. exact E.
  - intros Hroom Hn Hne root.
    rewrite !checkPrerequisites_queries
      by (cbn [Driver.prereqTable]; auto using wf_insert).
    cbn [Driver.tree Driver.prereqTable].
    rewrite !first_unresolved_None. split.
    + intros H. split.
      * apply H. apply queries_insert; auto. left. symmetry. auto.
      * intros q Hq. apply H. apply queries_insert; auto.
    + intros [Hp Hall] q Hq.
      apply queries_insert in Hq; auto.
      destruct Hq as [->|Hq]; [rewrite Hget by exact Hn; exact Hp|].
      apply Hall, Hq.
Qed.

Lemma register_truncates_witness :
  substring 0 7 "CSCI100-honors" = substring 0 7 "CSCI100H"
  /\ reachable (PrereqHashTable.new DEFAULT_PREREQUISITE_TABLE_SIZE)
  /\ PrereqHashTable.insert
       (PrereqHashTable.new DEFAULT_PREREQUISITE_TABLE_SIZE) "CSCI100-honors"
     = PrereqHashTable.insert
         (PrereqHashTable.new DEFAULT_PREREQUISITE_TABLE_SIZE) "CSCI100H"
  /\ In "CSCI100"
       (queries (PrereqHashTable.insert
                   (PrereqHashTable.new DEFAULT_PREREQUISITE_TABLE_SIZE)
                   "CSCI100-honors"))
  /\ BinarySearchTree.Exists
       (insert_all BinarySearchTree.new [dup_first]) "CSCI100-honors" = false
  /\ Driver.checkPrerequisites
       (Driver.mk (insert_all BinarySearchTree.new [dup_first])
          (PrereqHashTable.insert
             (PrereqHashTable.new DEFAULT_PREREQUISITE_TABLE_SIZE)
             "CSCI100-honors"))
     = None
  /\ Driver.checkPrerequisites
       (Driver.mk BinarySearchTree.new
          (PrereqHashTable.insert
             (PrereqHashTable.new DEFAULT_PREREQUISITE_TABLE_SIZE)
             "CSCI100-honors"))
     <> None.
Proof.
  split; [reflexivity|]. split; [apply reachable_new|].
  destruct (register_truncates
              (PrereqHashTable.new DEFAULT_PREREQUISITE_TABLE_SIZE)
              "CSCI100-honors" "CSCI100H")
    as (_ & _ & Hsame & _ & Hq).
  destruct (Hq reachable_new) as (_ & Hheld & _ & Hcheck).
  split; [apply Hsame; reflexivity|].
  split; [apply Hheld; [reflexivity|reflexivity|discriminate]|].
  split; [reflexivity|]. split.
  - apply (Hcheck eq_refl eq_refl ltac:(discriminate)). split; reflexivity.
  - intros H.
    apply (Hcheck eq_refl eq_refl ltac:(discriminate)) in H.
    destruct H as [H _]. discriminate H.
Defined.

(** * The loop of [menu] at the end of the input *)

Section Rounds.

Variable stoi : string -> Driver.stoi_result.
Variable erased : bool.
Hypothesis stoi_empty : stoi EmptyString = Driver.stoi_invalid_argument.

(** The string that a failing read leaves is rejected. *)
Lemma getline_menu_nil (s : string) :
  rejected stoi s ->
  rejected stoi (fst (Driver.getline_menu erased s []))
  /\ snd (Driver.getline_menu erased s []) = [].
Proof.
  intros H. cbn [Driver.getline_menu fst snd]. split; [|reflexivity].
  destruct erased; [left; exact stoi_empty|exact H].
Qed.

Lemma menu_rounds_nil (rounds : nat) :
  forall s cout cerr,
    rejected stoi s ->
    exists s' cerr',
      Driver.menu_rounds rounds stoi erased s [] cout cerr
      = Driver.Looping s' []
          (cout ++ repeated rounds
                     (Driver.menuText ++ endl ++ "Enter choice: "))%string
          cerr'
      /\ rejected stoi s'.
Proof.
  induction rounds as [|rounds IH]; intros s cout cerr Hs.
  - exists s, cerr. cbn [Driver.menu_rounds repeated].
    rewrite append_nil_r. auto.
  - cbn [Driver.menu_rounds repeated].
    destruct (getline_menu_nil s Hs) as [Hr Hnil].
    destruct (Driver.getline_menu erased s []) as [s1 cin1].
    cbn [fst snd] in Hr, Hnil. subst cin1.
    rewrite <- (append_assoc cout
                  (Driver.menuText ++ endl ++ "Enter choice: ")
                  (repeated rounds
                     (Driver.menuText ++ endl ++ "Enter choice: "))).
    destruct Hr as [E|(c & E & Hc)]; rewrite E; [|rewrite Hc]; apply IH.
    + left. exact E.
    + right. exists c. auto.
Qed.

Lemma menu_rounds_menu (cin : list string) :
  forall rounds s cout cerr,
    rejected stoi s ->
    match Driver.menu stoi cin cout cerr with
    | Driver.MenuSpins cout1 cerr1 =>
        (exists s' cout' cerr',
           Driver.menu_rounds rounds stoi erased s cin cout cerr
           = Driver.Looping s' (skipn rounds cin) cout' cerr')
        /\ (forall more, exists s' cerr',
              Driver.menu_rounds (S (length cin + more)) stoi erased s cin
                cout cerr
              = Driver.Looping s' []
                  (cout1 ++ repeated more
                     (Driver.menuText ++ endl ++ "Enter choice: "))%string
                  cerr')
    | r =>
        (length cin <= rounds)%nat ->
        Driver.menu_rounds rounds stoi erased s cin cout cerr = Driver.Done r
    end.
Proof.
  induction cin as [|l cin IH]; intros rounds s cout cerr Hs.
  - cbn [Driver.menu]. split.
    + destruct (menu_rounds_nil rounds s cout cerr Hs) as (s' & e' & E & _).
      rewrite skipn_nil. eauto.
    + intros more. cbn [length Nat.add].
      destruct (menu_rounds_nil (S more) s cout cerr Hs) as (s' & e' & E & _).
      cbn [repeated] in E.
      rewrite <- (append_assoc cout
                    (Driver.menuText ++ endl ++ "Enter choice: ")
                    (repeated more
                       (Driver.menuText ++ endl ++ "Enter choice: "))) in E.
      eauto.
  - cbn [Driver.menu].
    assert (Hstep : forall cerr1,
              rejected stoi l ->
              match Driver.menu stoi cin
                      (cout ++ Driver.menuText ++ endl ++ "Enter choice: ")
                      cerr1 with
              | Driver.MenuSpins cout1 cerr2 =>
                  (exists s' cout' cerr',
                     match rounds with
                     | O => Driver.Looping s (l :: cin) cout cerr
                     | S rounds' =>
                         Driver.menu_rounds rounds' stoi erased l cin
                           (cout ++ Driver.menuText ++ endl
                            ++ "Enter choice: ") cerr1
                     end
                     = Driver.Looping s' (skipn rounds (l :: cin)) cout' cerr')
                  /\ (forall more, exists s' cerr',
                        Driver.menu_rounds (S (length cin + more)) stoi erased
                          l cin
                          (cout ++ Driver.menuText ++ endl
                           ++ "Enter choice: ") cerr1
                        = Driver.Looping s' []
                            (cout1 ++ repeated more
                               (Driver.menuText ++ endl
                                ++ "Enter choice: "))%string
                            cerr')
              | r =>
                  (length (l :: cin) <= rounds)%nat ->
                  match rounds with
                  | O => Driver.Looping s (l :: cin) cout cerr
                  | S rounds' =>
                      Driver.menu_rounds rounds' stoi erased l cin
                        (cout ++ Driver.menuText ++ endl
                         ++ "Enter choice: ") cerr1
                  end = Driver.Done r
              end).
    { intros cerr1 Hl.
      pose proof (IH (pred rounds) l
                    (cout ++ Driver.menuText ++ endl ++ "Enter choice: ")%string
                    cerr1 Hl) as H.
      destruct (Driver.menu stoi cin _ cerr1) as [c cin1 o1 e1|cin1 o1 e1|o1 e1].
      - intros Hle. destruct rounds as [|rounds]; [cbn [length] in Hle; lia|].
        apply H. cbn [length pred] in *. lia.
      - intros Hle. destruct rounds as [|rounds]; [cbn [length] in Hle; lia|].
        apply H. cbn [length pred] in *. lia.
      - destruct H as [H1 H2]. split; [|exact H2].
        destruct rounds as [|rounds]; [cbn [skipn]; eauto|].
        cbn [skipn pred] in *. exact H1. }
    destruct rounds as [|rounds].
    + destruct (stoi l) as [c| |] eqn:E.
      * destruct (Driver.is_choice c) eqn:Hc.
        -- cbn [length]. lia.
        -- assert (Hl : rejected stoi l) by (right; exists c; auto).
           specialize (Hstep (cerr ++ show_int c ++ " is not a valid option."
                              ++ endl)%string Hl).
           destruct (Driver.menu stoi cin _ _);
             [cbn [length]; lia|cbn [length]; lia|].
           destruct Hstep as [H1 H2]. split; [exact H1|].
           intros more. cbn [length Nat.add Driver.menu_rounds
                             Driver.getline_menu].
           rewrite E, Hc. apply H2.
      * assert (Hl : rejected stoi l) by (left; exact E).
        specialize (Hstep (cerr ++ l ++ " is not a valid option."
                           ++ endl)%string Hl).
        destruct (Driver.menu stoi cin _ _);
          [cbn [length]; lia|cbn [length]; lia|].
        destruct Hstep as [H1 H2]. split; [exact H1|].
        intros more. cbn [length Nat.add Driver.menu_rounds
                          Driver.getline_menu].
        rewrite E. apply H2.
      * cbn [length]. lia.
    + cbn [Driver.menu_rounds Driver.getline_menu].
      destruct (stoi l) as [c| |] eqn:E.
      * destruct (Driver.is_choice c) eqn:Hc; [reflexivity|].
        assert (Hl : rejected stoi l) by (right; exists c; auto).
        specialize (Hstep (cerr ++ show_int c ++ " is not a valid option."
                           ++ endl)%string Hl).
        destruct (Driver.menu stoi cin _ _); exact Hstep.
      * assert (Hl : rejected stoi l) by (left; exact E).
        specialize (Hstep (cerr ++ l ++ " is not a valid option."
                           ++ endl)%string Hl).
        destruct (Driver.menu stoi cin _ _); exact Hstep.
      * reflexivity.
Qed.

End Rounds.

(** X20. [menu] never returns once the input is used up inside it.
    Round by round, with the reads that fail at the end of the input
    (given that [stoi] throws [invalid_argument] on the empty string, as
    [std::stoi] does): when every line left is rejected the loop is still
    going after any number of rounds, and every round after the last line
    sends the menu and the prompt to [cout] again; otherwise the loop is
    left within as many rounds as there are lines, with the choice, the
    lines left and the text that [menu] gives. *)
Theorem menu_spins_at_end_of_input (stoi : string -> Driver.stoi_result)
    (erased : bool) (cin : list string) (cout cerr : string) :
  stoi EmptyString = Driver.stoi_invalid_argument ->
  match Driver.menu stoi cin cout cerr with
  | Driver.MenuSpins cout1 cerr1 =>
      (forall rounds, exists s cout' cerr',
         Driver.menu_rounds rounds stoi erased EmptyString cin cout cerr
         = Driver.Looping s (skipn rounds cin) cout' cerr')
      /\ (forall more, exists s cerr',
            Driver.menu_rounds (S (length cin + more)) stoi erased
              EmptyString cin cout cerr
            = Driver.Looping s []
                (cout1 ++ repeated more
                   (Driver.menuText ++ endl ++ "Enter choice: "))%string
                cerr')
  | r =>
      forall rounds, (length cin <= rounds)%nat ->
        Driver.menu_rounds rounds stoi erased EmptyString cin cout cerr
        = Driver.Done r
  end.
Proof.
  intros H0.
  assert (Hs : rejected stoi EmptyString) by (left; exact H0).
  destruct (Driver.menu stoi cin cout cerr) as [c cin1 o1 e1|cin1 o1 e1|o1 e1]
    eqn:E.
  - intros rounds.
    pose proof (menu_rounds_menu stoi erased H0 cin rounds EmptyString
                  cout cerr Hs) as H.
    rewrite E in H. exact H.
  - intros rounds.
    pose proof (menu_rounds_menu stoi erased H0 cin rounds EmptyString
                  cout cerr Hs) as H.
    rewrite E in H. exact H.
  - split.
    + intros rounds.
      pose proof (menu_rounds_menu stoi erased H0 cin rounds EmptyString
                    cout cerr Hs) as H.
      rewrite E in H. exact (proj1 H).
    + pose proof (menu_rounds_menu stoi erased H0 cin O EmptyString
                    cout cerr Hs) as H.
      rewrite E in H. exact (proj2 H).
Qed.

Lemma menu_spins_at_end_of_input_witness :
  stoi_digit EmptyString = Driver.stoi_invalid_argument
  /\ forall rounds, exists s cout' cerr',
       Driver.menu_rounds rounds stoi_digit false EmptyString ["x"; "5"]
         EmptyString EmptyString
       = Driver.Looping s (skipn rounds ["x"; "5"]) cout' cerr'.
Proof.
  split; [reflexivity|].
  exact (proj1 (menu_spins_at_end_of_input stoi_digit false ["x"; "5"]
                  EmptyString EmptyString eq_refl)).
Defined.
